(** * line-reader: sequential, indexed and batched line reading

    A shallow embedding of [line-reader.js] (class [LineReader] and the
    decorator [withBatchProcessor]) and of [enhanced-line-reader.js] (class
    [EnhancedLineReader]), followed by the properties of the readers.

    Every [async] method is run to completion before the next one starts (the
    readers are not meant to be used concurrently), so a method is a function
    from the object's state to a completion and the new state.  A method that
    throws keeps the mutations it made before throwing. *)

From stdpp Require Import gmap strings list sorting.
From Stdlib Require Import ZArith Lia.

Local Open Scope Z_scope.

(** ** Completions and the state-and-exception monad *)

(** The [Error] objects the code creates, and the ones the stream raises. *)
Inductive Error : Type :=
| AlreadyOpen
| NotOpen
| IteratorNotInitialized
| BadLineNumber
| IOFault (msg : string).

Definition message (e : Error) : string :=
  match e with
  | AlreadyOpen => "File is already open"
  | NotOpen => "File is not open. Call open() first"
  | IteratorNotInitialized => "Line iterator is not initialized"
  | BadLineNumber => "Line number must be greater than 0"
  | IOFault msg => msg
  end.

(** How a call ends: it returns a value or it throws. *)
Inductive completion (A : Type) : Type :=
| Normal (a : A)
| Throw (e : Error).
Arguments Normal {A} a.
Arguments Throw {A} e.

Definition M (S A : Type) : Type := S -> completion A * S.

Definition ret {S A : Type} (a : A) : M S A := fun s => (Normal a, s).

Definition bind {S A B : Type} (c : M S A) (k : A -> M S B) : M S B :=
  fun s =>
    match c s with
    | (Normal a, s') => k a s'
    | (Throw e, s') => (Throw e, s')
    end.

Notation "'await' x ':=' c 'in' k" := (bind c (fun x => k))
  (at level 10, x name, c at level 200, k at level 200).

(** ** The stream behind a file *)

(** What one call of the line iterator's [next()] can deliver before the end
    of the stream: a line, or a read fault. The end of the list is [done]. *)
Inductive chunk : Type :=
| Line (value : string)
| Fault (msg : string).

(** The readline interface of an open file; [close()] drops it. *)
Inductive Interface : Type := ReadlineInterface.

(** ** The loops that call [this.readLine()]

    [skipLines] and [readLines] are inherited by [EnhancedLineReader], where
    [this.readLine] is the overriding method: the loops take it as a
    parameter. A loop [for (let i = 0; i < count; i++)] over an integer
    [count] runs [Z.to_nat count] times unless it breaks. *)
Section Dispatch.
Context {R : Type}.
Variable readLine : M R (option string).

Fixpoint skipLines_loop (iterations : nat) (skipped : Z) : M R Z :=
  match iterations with
  | O => ret skipped
  | S iterations' =>
      await line := readLine in
      match line with
      | None => ret skipped
      | Some _ => skipLines_loop iterations' (skipped + 1)
      end
  end.

Definition skipLines_of (count : Z) : M R Z :=
  skipLines_loop (Z.to_nat count) 0.

Fixpoint readLines_loop (iterations : nat) (lines : list string)
  : M R (list string) :=
  match iterations with
  | O => ret lines
  | S iterations' =>
      await line := readLine in
      match line with
      | None => ret lines
      | Some l => readLines_loop iterations' (lines ++ [l])
      end
  end.

Definition readLines_of (count : Z) : M R (list string) :=
  readLines_loop (Z.to_nat count) [].

(** [n] calls of [readLine] in a row, with all their completions. *)
Fixpoint readLine_times (n : nat) (r : R)
  : list (completion (option string)) * R :=
  match n with
  | O => ([], r)
  | S n' =>
      let '(c, r') := readLine r in
      let '(cs, r'') := readLine_times n' r' in
      (c :: cs, r'')
  end.

(** [readAll]: the loop [while ((line = await this.readLine()) !== null)]
    is run with fuel, [None] meaning that the fuel ran out. *)
Fixpoint readAll_loop (fuel : nat) (lines : list string) (r : R)
  : option (completion (list string) * R) :=
  match fuel with
  | O => None
  | S fuel' =>
      match readLine r with
      | (Throw e, r') => Some (Throw e, r')
      | (Normal None, r') => Some (Normal lines, r')
      | (Normal (Some l), r') => readAll_loop fuel' (lines ++ [l]) r'
      end
  end.

Definition readAll_of (fuel : nat) (r : R)
  : option (completion (list string) * R) :=
  readAll_loop fuel [] r.
End Dispatch.

(** ** class LineReader *)
Module LineReader.

Record t : Type := mk {
  (** the chunks the stream of [filePath] delivers each time it is opened *)
  filePath : list chunk;
  rl : option Interface;
  lineIterator : option (list chunk);
  isClosed : bool;
  currentLine : option string
}.

(** The options [encoding] and [highWaterMark] only parameterise the
    stream, whose deliveries [filePath] stands for. *)
Definition constructor (filePath : list chunk) : t :=
  {| filePath := filePath; rl := None; lineIterator := None;
     isClosed := false; currentLine := None |}.

Definition open : M t unit := fun this =>
  match rl this with
  | Some _ => (Throw AlreadyOpen, this)
  | None =>
      (Normal tt,
       {| filePath := filePath this;
          rl := Some ReadlineInterface;
          lineIterator := Some (filePath this);
          isClosed := isClosed this;
          currentLine := currentLine this |})
  end.

(** [close()] never throws; it is a state transformer. *)
Definition close (this : t) : t :=
  if isClosed this then this
  else {| filePath := filePath this;
          rl := None;
          lineIterator := None;
          isClosed := true;
          currentLine := currentLine this |}.

Definition readLine : M t (option string) := fun this =>
  match rl this with
  | None => (Throw NotOpen, this)
  | Some _ =>
      if isClosed this then (Normal None, this)
      else
        match lineIterator this with
        | None => (Throw IteratorNotInitialized, this)
        | Some [] => (Normal None, close this)
        | Some (Line value :: rest) =>
            (Normal (Some value),
             {| filePath := filePath this;
                rl := rl this;
                lineIterator := Some rest;
                isClosed := isClosed this;
                currentLine := Some value |})
        | Some (Fault msg :: rest) =>
            (Throw (IOFault msg),
             close {| filePath := filePath this;
                      rl := rl this;
                      lineIterator := Some rest;
                      isClosed := isClosed this;
                      currentLine := currentLine this |})
        end
  end.

Definition skipLines : Z -> M t Z := skipLines_of readLine.

Definition readLines : Z -> M t (list string) := readLines_of readLine.

Definition restart : M t unit := fun this =>
  let this1 := close this in
  open {| filePath := filePath this1;
          rl := rl this1;
          lineIterator := lineIterator this1;
          isClosed := false;
          currentLine := currentLine this1 |}.

Definition isEOF (this : t) : bool := isClosed this.

Definition readAll : nat -> t -> option (completion (list string) * t) :=
  readAll_of readLine.

(** [[Symbol.asyncDispose]()] *)
Definition asyncDispose (this : t) : t := close this.

End LineReader.

(** ** class EnhancedLineReader extends LineReader *)
Module EnhancedLineReader.

Record t : Type := mk {
  super : LineReader.t;
  cache : gmap Z string;
  cacheSize : Z;
  linePointer : Z
}.

(** [options.cacheSize || 1000]: a missing or zero option gives 1000. *)
Definition constructor (filePath : list chunk) (options_cacheSize : option Z)
  : t :=
  {| super := LineReader.constructor filePath;
     cache := ∅;
     cacheSize :=
       match options_cacheSize with
       | Some c => if c =? 0 then 1000 else c
       | None => 1000
       end;
     linePointer := 0 |}.

(** A method of the base class run on the derived object. *)
Definition inherited {A : Type} (method : M LineReader.t A) : M t A :=
  fun this =>
    let '(c, base) := method (super this) in
    (c, {| super := base; cache := cache this;
           cacheSize := cacheSize this; linePointer := linePointer this |}).

Definition set_linePointer (p : Z) (this : t) : t :=
  {| super := super this; cache := cache this;
     cacheSize := cacheSize this; linePointer := p |}.

(** [this.cache.set(key, line)] *)
Definition cache_set (key : Z) (line : string) (this : t) : t :=
  {| super := super this; cache := <[key := line]> (cache this);
     cacheSize := cacheSize this; linePointer := linePointer this |}.

(** [Array.from(this.cache.keys()).sort((a, b) => a - b)] *)
Definition sorted_keys (c : gmap Z string) : list Z :=
  merge_sort Z.le (map fst (map_to_list c)).

(** [keys.slice(0, end)]: a negative [end] counts from the back. *)
Definition slice0 {A : Type} (end_ : Z) (keys : list A) : list A :=
  if end_ <? 0 then take (Z.to_nat (Z.of_nat (length keys) + end_)) keys
  else take (Z.to_nat end_) keys.

Definition manageCache (this : t) : t :=
  if Z.of_nat (size (cache this)) >? cacheSize this then
    let keys := sorted_keys (cache this) in
    let toRemove := slice0 (cacheSize this / 2) keys in
    {| super := super this;
       cache := foldl (fun c key => delete key c) (cache this) toRemove;
       cacheSize := cacheSize this;
       linePointer := linePointer this |}
  else this.

Definition readLine : M t (option string) :=
  await line := inherited LineReader.readLine in
  match line with
  | Some l => fun this =>
      let this1 := set_linePointer (linePointer this + 1) this in
      (Normal line, manageCache (cache_set (linePointer this1) l this1))
  | None => ret line
  end.

Definition skipLines : Z -> M t Z := skipLines_of readLine.

Definition readLines : Z -> M t (list string) := readLines_of readLine.

Definition restart : M t unit := inherited LineReader.restart.

Definition open : M t unit := inherited LineReader.open.

Definition close (this : t) : t :=
  {| super := LineReader.close (super this); cache := cache this;
     cacheSize := cacheSize this; linePointer := linePointer this |}.

Definition isEOF (this : t) : bool := LineReader.isEOF (super this).

Definition readLineAt (lineNumber : Z) : M t (option string) := fun this =>
  if lineNumber <? 1 then (Throw BadLineNumber, this)
  else
    match cache this !! lineNumber with
    | Some line => (Normal (Some line), this)
    | None =>
        (await _ := (fun this =>
                       if lineNumber <=? linePointer this then
                         (await _ := restart in
                          fun this => (Normal tt, set_linePointer 0 this))
                           this
                       else (Normal tt, this)) in
         await _ := (fun this =>
                       skipLines (lineNumber - linePointer this - 1) this) in
         await line := readLine in
         match line with
         | Some l => fun this =>
             (Normal line, manageCache (cache_set lineNumber l this))
         | None => ret line
         end) this
    end.

Definition getCurrentLineNumber (this : t) : Z := linePointer this.

Definition readAll : nat -> t -> option (completion (list string) * t) :=
  readAll_of readLine.

End EnhancedLineReader.

(** ** withBatchProcessor

    The decorator works on any reader with [isEOF()] and [readLines(n)].
    [readBatches] is an async generator; iterating it to its end gives the
    batches it yields, the way it finishes and the reader it leaves. The
    [while] loop is run with fuel, [None] meaning that the fuel ran out. *)
Section BatchProcessor.
Context {R : Type}.
Variable isEOF : R -> bool.
Variable readLines : Z -> M R (list string).

Fixpoint readBatches (batchSize : Z) (fuel : nat) (reader : R)
  : option (list (list string) * completion unit * R) :=
  match fuel with
  | O => None
  | S fuel' =>
      if isEOF reader then Some ([], Normal tt, reader)
      else
        match readLines batchSize reader with
        | (Throw e, reader') => Some ([], Throw e, reader')
        | (Normal batch, reader') =>
            if (length batch =? 0)%nat then Some ([], Normal tt, reader')
            else
              match readBatches batchSize fuel' reader' with
              | Some (batches, c, reader'') =>
                  Some (batch :: batches, c, reader'')
              | None => None
              end
        end
  end.

(** [withBatchProcessor(reader, batchSize = 1000)]: a missing batch size is
    1000. *)
Definition withBatchProcessor (batchSize : option Z) (fuel : nat) (reader : R)
  : option (list (list string) * completion unit * R) :=
  readBatches (default 1000 batchSize) fuel reader.
End BatchProcessor.

(** * Vocabulary of the properties *)

(** ** Sessions that are open on a fault-free file *)

(** The session holds a handle, is not closed, and its iterator still has
    exactly the lines [ls] to deliver before the end of the stream. *)
Definition opened (ls : list string) (this : LineReader.t) : Prop :=
  LineReader.rl this = Some ReadlineInterface
  /\ LineReader.isClosed this = false
  /\ LineReader.lineIterator this = Some (map Line ls).

(** The session was closed and its handle and iterator were released. *)
Definition released (this : LineReader.t) : Prop :=
  LineReader.rl this = None
  /\ LineReader.isClosed this = true
  /\ LineReader.lineIterator this = None.

(** ** Indexed sessions over a fault-free file *)

(** A call a client makes on an indexed reader. *)
Inductive call : Type :=
| CallReadLine
| CallReadLineAt (lineNumber : Z).

(** The state a call leaves, whether it returned or threw. *)
Definition perform (this : EnhancedLineReader.t) (c : call)
  : EnhancedLineReader.t :=
  match c with
  | CallReadLine => snd (EnhancedLineReader.readLine this)
  | CallReadLineAt lineNumber =>
      snd (EnhancedLineReader.readLineAt lineNumber this)
  end.

Definition after_calls (this : EnhancedLineReader.t) (cs : list call)
  : EnhancedLineReader.t :=
  foldl perform this cs.

(** What holds of an indexed session over the lines [ls] between calls: the
    cache only has lines of the file under their numbers, and the pointer is
    the number of lines consumed since the file was last opened, the session
    being either open there or closed by the end of the stream. *)
Definition consistent (ls : list string) (this : EnhancedLineReader.t) : Prop :=
  LineReader.filePath (EnhancedLineReader.super this) = map Line ls
  /\ (forall (k : Z) (v : string),
        EnhancedLineReader.cache this !! k = Some v ->
        1 <= k /\ ls !! Z.to_nat (k - 1) = Some v)
  /\ 0 <= EnhancedLineReader.linePointer this <= Z.of_nat (length ls)
  /\ (opened (drop (Z.to_nat (EnhancedLineReader.linePointer this)) ls)
        (EnhancedLineReader.super this)
      \/ (released (EnhancedLineReader.super this)
          /\ EnhancedLineReader.linePointer this = Z.of_nat (length ls))).

(** The lines of the test file of [enhanced-line-reader.test.js]. *)
Definition TEST_LINES : list string :=
  ["Alpha"; "Bravo"; "Charlie"; "Delta"; "Echo"].

(** The reader has the capacity [capacity], which is at least two, and its
    cache holds no more entries than that. *)
Definition bounded (capacity : Z) (this : EnhancedLineReader.t) : Prop :=
  EnhancedLineReader.cacheSize this = capacity
  /\ 2 <= capacity
  /\ Z.of_nat (size (EnhancedLineReader.cache this)) <= capacity.

(** ** Sessions over any stream *)

(** The session holds a handle, is not closed, and its iterator still has the
    chunks [chunks] to deliver, lines or faults. *)
Definition reading (chunks : list chunk) (this : LineReader.t) : Prop :=
  LineReader.rl this = Some ReadlineInterface
  /\ LineReader.isClosed this = false
  /\ LineReader.lineIterator this = Some chunks.

(** A closed session holds neither handle nor iterator. *)
Definition tidy (this : LineReader.t) : Prop :=
  LineReader.isClosed this = true ->
  LineReader.rl this = None /\ LineReader.lineIterator this = None.

(** The number of chunks the iterator has not delivered yet. *)
Definition remaining (this : LineReader.t) : nat :=
  match LineReader.lineIterator this with
  | Some chunks => length chunks
  | None => O
  end.

(** A reading call a client makes on a sequential reader, or a restart. *)
Inductive request : Type :=
| ReadLine
| SkipLines (count : Z)
| ReadLines (count : Z)
| Restart.

(** The state a request leaves, whether it returned or threw. *)
Definition serve (this : LineReader.t) (q : request) : LineReader.t :=
  match q with
  | ReadLine => snd (LineReader.readLine this)
  | SkipLines count => snd (LineReader.skipLines count this)
  | ReadLines count => snd (LineReader.readLines count this)
  | Restart => snd (LineReader.restart this)
  end.

Definition after_requests (this : LineReader.t) (qs : list request)
  : LineReader.t :=
  foldl serve this qs.

(** [skipLines] ended as [readLines] did, with the number of the lines. *)
Definition counts (skipped : completion Z) (lines : completion (list string))
  : Prop :=
  match skipped, lines with
  | Normal n, Normal ls => n = Z.of_nat (length ls)
  | Throw e, Throw e' => e = e'
  | _, _ => False
  end.

(** No cached line number is ahead of the pointer. *)
Definition keys_below (this : EnhancedLineReader.t) : Prop :=
  forall key : Z,
    is_Some (EnhancedLineReader.cache this !! key) ->
    key <= EnhancedLineReader.linePointer this.

(** The capacity covers the whole file, and the cached line numbers have no
    gap: they include every number up to the pointer and, with a number,
    every lower one. *)
Definition gapless (ls : list string) (this : EnhancedLineReader.t) : Prop :=
  consistent ls this
  /\ Z.of_nat (length ls) <= EnhancedLineReader.cacheSize this
  /\ (forall key : Z,
        1 <= key <= EnhancedLineReader.linePointer this ->
        is_Some (EnhancedLineReader.cache this !! key))
  /\ (forall key key' : Z,
        is_Some (EnhancedLineReader.cache this !! key') ->
        1 <= key <= key' ->
        is_Some (EnhancedLineReader.cache this !! key)).

(** The line numbers in [K] are cached. *)
Definition retains (K : Z -> Prop) (this : EnhancedLineReader.t) : Prop :=
  forall key : Z, K key -> is_Some (EnhancedLineReader.cache this !! key).

(** * Properties of the sequential reader *)

Lemma open_constructor (fp : list chunk) :
  LineReader.open (LineReader.constructor fp)
  = (Normal tt,
     LineReader.mk fp (Some ReadlineInterface) (Some fp) false None).
Proof. reflexivity. Qed.

Lemma opened_fresh (ls : list string) :
  opened ls (snd (LineReader.open (LineReader.constructor (map Line ls)))).
Proof. repeat split. Qed.

Lemma readLine_opened_cons (l : string) (ls : list string) (this : LineReader.t) :
  opened (l :: ls) this ->
  exists this',
    LineReader.readLine this = (Normal (Some l), this')
    /\ opened ls this'
    /\ LineReader.filePath this' = LineReader.filePath this.
Proof.
  intros (Hrl & Hcl & Hit). unfold LineReader.readLine.
  rewrite Hrl, Hcl, Hit. simpl. eexists. split; [reflexivity|].
  repeat split; simpl; auto.
Qed.

Lemma readLine_opened_nil (this : LineReader.t) :
  opened [] this ->
  LineReader.readLine this = (Normal None, LineReader.close this)
  /\ released (LineReader.close this)
  /\ LineReader.filePath (LineReader.close this) = LineReader.filePath this.
Proof.
  intros (Hrl & Hcl & Hit). unfold LineReader.readLine.
  rewrite Hrl, Hcl, Hit. simpl. split; [reflexivity|].
  unfold LineReader.close. rewrite Hcl. repeat split.
Qed.

Lemma readLine_no_handle (this : LineReader.t) :
  LineReader.rl this = None ->
  LineReader.readLine this = (Throw NotOpen, this).
Proof. intros H. unfold LineReader.readLine. now rewrite H. Qed.

Lemma close_closed (this : LineReader.t) :
  LineReader.isClosed this = true -> LineReader.close this = this.
Proof. intros H. unfold LineReader.close. now rewrite H. Qed.

Lemma close_isClosed (this : LineReader.t) :
  LineReader.isClosed (LineReader.close this) = true.
Proof.
  unfold LineReader.close. destruct (LineReader.isClosed this) eqn:E; auto.
Qed.

Lemma close_open_session (this : LineReader.t) :
  LineReader.isClosed this = false -> released (LineReader.close this).
Proof. intros H. unfold LineReader.close. rewrite H. repeat split. Qed.

(** The loops do nothing when the count is not positive, whatever
    [this.readLine] is. *)
Lemma loops_nonpositive {R : Type} (readLine : M R (option string))
    (count : Z) (r : R) :
  count <= 0 ->
  skipLines_of readLine count r = (Normal 0, r)
  /\ readLines_of readLine count r = (Normal [], r).
Proof.
  intros H. unfold skipLines_of, readLines_of.
  replace (Z.to_nat count) with O by lia. split; reflexivity.
Qed.

(** ** The loops on an open fault-free session *)

Lemma skipLines_loop_opened (n : nat) :
  forall (ls : list string) (this : LineReader.t) (skipped : Z),
    opened ls this ->
    exists this',
      skipLines_loop LineReader.readLine n skipped this
      = (Normal (skipped + Z.of_nat (Nat.min n (length ls))), this')
      /\ LineReader.filePath this' = LineReader.filePath this
      /\ ((n <= length ls)%nat -> opened (drop n ls) this')
      /\ ((length ls < n)%nat -> released this').
Proof.
  induction n as [|n IH]; intros ls this skipped Hop.
  - exists this. simpl. unfold ret. rewrite Z.add_0_r.
    split; [reflexivity|]. split; [reflexivity|].
    split; [intros _; exact Hop|intros; lia].
  - destruct ls as [|l ls].
    + destruct (readLine_opened_nil this Hop) as (Hr & Hrel & Hfp).
      exists (LineReader.close this). simpl. unfold bind. rewrite Hr.
      unfold ret. simpl. rewrite Z.add_0_r.
      split; [reflexivity|]. split; [exact Hfp|].
      split; [simpl; lia|intros _; exact Hrel].
    + destruct (readLine_opened_cons l ls this Hop) as (this1 & Hr & Hop1 & Hfp1).
      destruct (IH ls this1 (skipped + 1) Hop1) as (this' & Hs & Hfp & Hle & Hgt).
      exists this'. simpl skipLines_loop. unfold bind. rewrite Hr, Hs.
      split; [f_equal; f_equal; simpl length; lia|].
      split; [congruence|]. simpl length. split; intros; [apply Hle|apply Hgt]; lia.
Qed.

Lemma readLines_loop_opened (n : nat) :
  forall (ls : list string) (this : LineReader.t) (lines : list string),
    opened ls this ->
    exists this',
      readLines_loop LineReader.readLine n lines this
      = (Normal (lines ++ take n ls), this')
      /\ LineReader.filePath this' = LineReader.filePath this
      /\ ((n <= length ls)%nat -> opened (drop n ls) this')
      /\ ((length ls < n)%nat -> released this').
Proof.
  induction n as [|n IH]; intros ls this lines Hop.
  - exists this. simpl. unfold ret. rewrite app_nil_r.
    split; [reflexivity|]. split; [reflexivity|].
    split; [intros _; exact Hop|intros; lia].
  - destruct ls as [|l ls].
    + destruct (readLine_opened_nil this Hop) as (Hr & Hrel & Hfp).
      exists (LineReader.close this). simpl. unfold bind. rewrite Hr.
      unfold ret. simpl. rewrite app_nil_r.
      split; [reflexivity|]. split; [exact Hfp|].
      split; [simpl; lia|intros _; exact Hrel].
    + destruct (readLine_opened_cons l ls this Hop) as (this1 & Hr & Hop1 & Hfp1).
      destruct (IH ls this1 (lines ++ [l]) Hop1) as (this' & Hs & Hfp & Hle & Hgt).
      exists this'. simpl readLines_loop. unfold bind. rewrite Hr, Hs.
      split; [now rewrite <- app_assoc|].
      split; [congruence|]. simpl length. split; intros; [apply Hle|apply Hgt]; lia.
Qed.

(** Sequential reads of an open session: the remaining lines, then [null]
    once (which closes the session), then the misuse error. *)
Lemma readLine_times_opened (ls : list string) :
  forall (this : LineReader.t),
    opened ls this ->
    exists this',
      readLine_times LineReader.readLine (S (length ls)) this
      = (map (fun l => Normal (Some l)) ls ++ [Normal None], this')
      /\ released this'.
Proof.
  induction ls as [|l ls IH]; intros this Hop.
  - destruct (readLine_opened_nil this Hop) as (Hr & Hrel & _).
    exists (LineReader.close this). simpl. now rewrite Hr.
  - destruct (readLine_opened_cons l ls this Hop) as (this1 & Hr & Hop1 & _).
    destruct (IH this1 Hop1) as (this' & Hs & Hrel).
    exists this'. split; [|exact Hrel].
    change (length (l :: ls)) with (S (length ls)).
    remember (S (length ls)) as m. simpl. rewrite Hr, Hs. reflexivity.
Qed.

Lemma readLine_times_prefix (n : nat) :
  forall (ls : list string) (this : LineReader.t),
    opened ls this ->
    (n <= length ls)%nat ->
    exists this',
      readLine_times LineReader.readLine n this
      = (map (fun l => Normal (Some l)) (take n ls), this')
      /\ opened (drop n ls) this'.
Proof.
  induction n as [|n IH]; intros ls this Hop Hn.
  - exists this. split; [reflexivity|exact Hop].
  - destruct ls as [|l ls]; [simpl in Hn; lia|].
    destruct (readLine_opened_cons l ls this Hop) as (this1 & Hr & Hop1 & _).
    destruct (IH ls this1 Hop1) as (this' & Hs & Hop'); [simpl in Hn; lia|].
    exists this'. split; [|exact Hop'].
    simpl. rewrite Hr, Hs. reflexivity.
Qed.

Lemma readLine_times_app {R : Type} (readLine : M R (option string)) (n m : nat) :
  forall (r : R),
    readLine_times readLine (n + m) r
    = let '(cs, r') := readLine_times readLine n r in
      let '(cs', r'') := readLine_times readLine m r' in
      (cs ++ cs', r'').
Proof.
  induction n as [|n IH]; intros r; simpl.
  - now destruct (readLine_times readLine m r).
  - destruct (readLine r) as [c r1]. rewrite IH.
    destruct (readLine_times readLine n r1) as [cs r2].
    now destruct (readLine_times readLine m r2).
Qed.

(** As long as the reads deliver lines, [skipLines] is the same run of
    [readLine] calls, whichever [readLine] the object has. *)
Lemma skipLines_loop_readLine_times {R : Type} (readLine : M R (option string))
    (n more : nat) :
  forall (r r' : R) (cs : list (completion (option string))) (skipped : Z),
    readLine_times readLine n r = (cs, r') ->
    Forall (fun c => exists l, c = Normal (Some l)) cs ->
    skipLines_loop readLine (n + more) skipped r
    = skipLines_loop readLine more (skipped + Z.of_nat n) r'.
Proof.
  induction n as [|n IH]; intros r r' cs skipped Hrun Hall.
  - simpl in *. inversion Hrun; subst. now rewrite Z.add_0_r.
  - simpl in Hrun. destruct (readLine r) as [c r1] eqn:Hr.
    destruct (readLine_times readLine n r1) as [cs1 r2] eqn:Hrest.
    inversion Hrun; subst. inversion Hall as [|? ? [l ->] Hall']; subst.
    simpl. unfold bind. rewrite Hr.
    rewrite (IH r1 r' cs1 (skipped + 1) Hrest Hall'). f_equal. lia.
Qed.

(** Reads on a session without a handle all throw and change nothing. *)
Lemma readLine_times_no_handle (n : nat) (this : LineReader.t) :
  LineReader.rl this = None ->
  exists cs,
    readLine_times LineReader.readLine (S n) this = (cs, this)
    /\ last cs = Some (Throw NotOpen).
Proof.
  intros Hrl. induction n as [|n (cs & Hrun & Hlast)].
  - exists [Throw NotOpen]. simpl. now rewrite (readLine_no_handle _ Hrl).
  - exists (Throw NotOpen :: cs). split.
    + change (readLine_times LineReader.readLine (S (S n)) this)
        with (let '(c, r') := LineReader.readLine this in
              let '(cs, r'') := readLine_times LineReader.readLine (S n) r' in
              (c :: cs, r'')).
      now rewrite (readLine_no_handle _ Hrl), Hrun.
    + now rewrite last_cons, Hlast.
Qed.

(** C2: on a freshly opened reader of a file with N lines, N+1 calls of
    [readLine()] return the N lines in file order and then [null], and
    [isEOF()] is true afterwards. *)
Theorem readLine_all_then_null (ls : list string) :
  exists this this',
    LineReader.open (LineReader.constructor (map Line ls)) = (Normal tt, this)
    /\ readLine_times LineReader.readLine (S (length ls)) this
       = (map (fun l => Normal (Some l)) ls ++ [Normal None], this')
    /\ LineReader.isEOF this' = true.
Proof.
  destruct (readLine_times_opened ls _ (opened_fresh ls)) as (this' & Hrun & Hrel).
  eexists. exists this'. split; [apply open_constructor|].
  split; [exact Hrun|]. apply Hrel.
Qed.

(** C3 (as the code has it): [readLine()] throws the "not open" error, and
    changes nothing, on every session without a handle: a session that was
    never opened, and equally a session closed by [close()], by the end of
    the stream or by a read fault, since each of these releases the handle.
    It returns [null] at once only where the closed flag is set on a session
    that holds a handle. *)
Theorem readLine_on_closed_session (this : LineReader.t) :
  (LineReader.rl this = None ->
   LineReader.readLine this = (Throw NotOpen, this))
  /\ (LineReader.rl this <> None -> LineReader.isClosed this = true ->
      LineReader.readLine this = (Normal None, this))
  /\ (LineReader.isClosed this = false ->
      LineReader.rl (LineReader.close this) = None
      /\ forall c this',
           LineReader.readLine this = (c, this') ->
           LineReader.isClosed this' = true ->
           LineReader.rl this' = None).
Proof.
  split; [apply readLine_no_handle|]. split.
  - intros Hrl Hcl. unfold LineReader.readLine.
    destruct (LineReader.rl this); [now rewrite Hcl|congruence].
  - intros Hcl. split; [apply (close_open_session this Hcl)|].
    intros c this'. unfold LineReader.readLine.
    destruct (LineReader.rl this) eqn:Hrl; [|intros [= <- <-]; auto].
    rewrite Hcl.
    destruct (LineReader.lineIterator this) as [[|[value|msg] rest]|];
      intros [= <- <-]; simpl; try congruence.
    intros _. apply (close_open_session this Hcl).
Qed.

(** C6: when the iterator of an open session raises during [readLine()],
    the call throws that very error (no [null] in its place), the session is
    left closed with handle and iterator released, and a further
    [readLine()] does not read again: it throws the "not open" error. *)
Theorem readLine_fault_closes (this : LineReader.t) (msg : string)
    (rest : list chunk) :
  LineReader.rl this <> None ->
  LineReader.isClosed this = false ->
  LineReader.lineIterator this = Some (Fault msg :: rest) ->
  exists this',
    LineReader.readLine this = (Throw (IOFault msg), this')
    /\ LineReader.isEOF this' = true
    /\ LineReader.rl this' = None
    /\ LineReader.lineIterator this' = None
    /\ LineReader.readLine this' = (Throw NotOpen, this').
Proof.
  intros Hrl Hcl Hit. unfold LineReader.readLine at 1.
  destruct (LineReader.rl this) eqn:E; [|congruence].
  rewrite Hcl, Hit. eexists. split; [reflexivity|].
  repeat split; reflexivity.
Qed.

(** C7: on an open session with the lines [ls] left, for every [k >= 0],
    [skipLines(k)] followed by [readLine()] ends as the last of [k+1] calls
    of [readLine()] does, and in the same state; for [k <= N] that is with
    line [k+1], or with [null] when [k = N]. For any count, [skipLines]
    returns the number of lines it consumed: [count] cut down to the range
    [0..N], less than requested when the stream ends early. *)
Theorem skipLines_then_readLine (ls : list string) (this : LineReader.t) :
  opened ls this ->
  (forall k : Z,
      0 <= k ->
      exists this1 cs,
        LineReader.skipLines k this
        = (Normal (Z.min k (Z.of_nat (length ls))), this1)
        /\ readLine_times LineReader.readLine (S (Z.to_nat k)) this
           = (cs, snd (LineReader.readLine this1))
        /\ last cs = Some (fst (LineReader.readLine this1))
        /\ (k <= Z.of_nat (length ls) ->
            fst (LineReader.readLine this1) = Normal (ls !! Z.to_nat k)))
  /\ (forall count : Z,
        exists this1,
          LineReader.skipLines count this
          = (Normal (Z.max 0 (Z.min count (Z.of_nat (length ls)))), this1)
          /\ (count <= Z.of_nat (length ls) ->
              opened (drop (Z.to_nat count) ls) this1)
          /\ (Z.of_nat (length ls) < count -> LineReader.isEOF this1 = true)).
Proof.
  intros Hop. split.
  - intros k Hk.
    assert (forall n, Forall (fun c => exists l, c = Normal (Some l))
                        (map (fun l : string => Normal (Some l)) (take n ls)))
      as Hlines.
    { intros n. apply Forall_forall. intros c Hc. apply list_elem_of_In in Hc.
      apply in_map_iff in Hc. destruct Hc as (l & <- & _). now exists l. }
    destruct (le_lt_dec (Z.to_nat k) (length ls)) as [Hfit|Hover].
    + (* the skip stays inside the file *)
      destruct (readLine_times_prefix (Z.to_nat k) ls this Hop Hfit)
        as (this1 & Hrun & Hop1).
      exists this1.
      exists (map (fun l => Normal (Some l)) (take (Z.to_nat k) ls)
              ++ [fst (LineReader.readLine this1)]).
      split.
      { unfold LineReader.skipLines, skipLines_of.
        rewrite <- (Nat.add_0_r (Z.to_nat k)).
        rewrite (skipLines_loop_readLine_times _ _ 0 _ _ _ 0 Hrun (Hlines _)).
        simpl. unfold ret. f_equal. f_equal. lia. }
      split; [|split; [apply last_snoc|]].
      * replace (S (Z.to_nat k)) with (Z.to_nat k + 1)%nat by lia.
        rewrite readLine_times_app, Hrun. simpl.
        now destruct (LineReader.readLine this1).
      * intros _. destruct (drop (Z.to_nat k) ls) as [|l rest] eqn:Hd.
        -- destruct (readLine_opened_nil this1 Hop1) as (-> & _). simpl.
           f_equal. symmetry. apply lookup_ge_None.
           apply (f_equal length) in Hd. rewrite length_drop in Hd.
           simpl in Hd. lia.
        -- destruct (readLine_opened_cons l rest this1 Hop1) as (? & -> & _).
           simpl. f_equal. symmetry.
           rewrite <- (Nat.add_0_r (Z.to_nat k)), <- lookup_drop, Hd.
           reflexivity.
    + (* the skip meets the end of the stream, which closes the session *)
      destruct (readLine_times_prefix (length ls) ls this Hop (le_n _))
        as (thisN & Hrun & HopN).
      rewrite drop_all in HopN.
      destruct (readLine_opened_nil thisN HopN) as (Hend & (Hrl & _) & _).
      destruct (readLine_times_no_handle (Z.to_nat k - length ls - 1) _ Hrl)
        as (throws & Hthrows & Hlast).
      exists (LineReader.close thisN).
      exists (map (fun l => Normal (Some l)) (take (length ls) ls)
              ++ Normal None :: throws).
      rewrite (readLine_no_handle _ Hrl). simpl fst. simpl snd.
      split.
      { unfold LineReader.skipLines, skipLines_of.
        replace (Z.to_nat k)
          with (length ls + S (Z.to_nat k - length ls - 1))%nat by lia.
        rewrite (skipLines_loop_readLine_times _ _ _ _ _ _ 0 Hrun (Hlines _)).
        simpl. unfold bind. rewrite Hend. unfold ret. f_equal. f_equal. lia. }
      split; [|split; [|intros; lia]].
      * replace (S (Z.to_nat k))
          with (length ls + S (S (Z.to_nat k - length ls - 1)))%nat by lia.
        rewrite readLine_times_app, Hrun.
        change (readLine_times LineReader.readLine
                  (S (S (Z.to_nat k - length ls - 1))) thisN)
          with (let '(c, r') := LineReader.readLine thisN in
                let '(cs, r'') :=
                  readLine_times LineReader.readLine
                    (S (Z.to_nat k - length ls - 1)) r' in
                (c :: cs, r'')).
        now rewrite Hend, Hthrows.
      * now rewrite last_app_cons, last_cons, Hlast.
  - intros count.
    destruct (skipLines_loop_opened (Z.to_nat count) ls this 0 Hop)
      as (this1 & Hs & _ & Hle & Hgt).
    exists this1. split; [|split].
    + unfold LineReader.skipLines, skipLines_of. rewrite Hs. f_equal. f_equal. lia.
    + intros H. apply Hle. lia.
    + intros H. apply Hgt. lia.
Qed.

(** C8 (as the code has it): [open()] on a session that holds a handle
    throws the "already open" error and changes nothing. [close()] never
    throws. On an already-closed session it changes nothing; on a
    never-opened session it sets the closed flag, so that [isEOF()] becomes
    true, and nothing else. Calling it again, any number of times, changes
    nothing more. *)
Theorem open_twice_close_twice (this : LineReader.t) :
  (LineReader.rl this <> None ->
   LineReader.open this = (Throw AlreadyOpen, this))
  /\ (LineReader.isClosed this = true -> LineReader.close this = this)
  /\ (forall fp : list chunk,
        LineReader.close (LineReader.constructor fp)
        = LineReader.mk fp None None true None)
  /\ (forall n : nat,
        Nat.iter (S n) LineReader.close this = LineReader.close this).
Proof.
  split; [|split; [apply close_closed|split; [reflexivity|]]].
  - intros H. unfold LineReader.open.
    destruct (LineReader.rl this); [reflexivity|congruence].
  - induction n as [|n IH]; [reflexivity|].
    change (Nat.iter (S (S n)) LineReader.close this)
      with (LineReader.close (Nat.iter (S n) LineReader.close this)).
    rewrite IH. apply close_closed, close_isClosed.
Qed.

(** C10: with a count that is not positive, [skipLines] returns 0 and
    [readLines] returns the empty array, in every state of a sequential or
    an indexed reader (never opened and closed ones too), without an error
    and without changing the state. *)
Theorem nonpositive_count_reads_nothing (count : Z) :
  count <= 0 ->
  (forall this : LineReader.t,
      LineReader.skipLines count this = (Normal 0, this)
      /\ LineReader.readLines count this = (Normal [], this))
  /\ (forall this : EnhancedLineReader.t,
        EnhancedLineReader.skipLines count this = (Normal 0, this)
        /\ EnhancedLineReader.readLines count this = (Normal [], this)).
Proof.
  intros H. split; intros this; now apply loops_nonpositive.
Qed.

(** ** The batch adapter on an open fault-free session *)

(** Once the iteration ends with some fuel, more fuel changes nothing. *)
Lemma readBatches_more_fuel {R : Type} (isEOF : R -> bool)
    (readLines : Z -> M R (list string)) (b : Z) (fuel : nat) :
  forall (r : R) (res : list (list string) * completion unit * R),
    readBatches isEOF readLines b fuel r = Some res ->
    forall fuel' : nat,
      (fuel <= fuel')%nat ->
      readBatches isEOF readLines b fuel' r = Some res.
Proof.
  induction fuel as [|fuel IH]; intros r res Hrun fuel' Hle; [discriminate|].
  destruct fuel' as [|fuel']; [lia|]. simpl in *.
  destruct (isEOF r); [exact Hrun|].
  destruct (readLines b r) as [[batch|e] r1]; [|exact Hrun].
  destruct (length batch =? 0)%nat; [exact Hrun|].
  destruct (readBatches isEOF readLines b fuel r1) as [res1|] eqn:E; [|discriminate].
  rewrite (IH r1 res1 E fuel') by lia. exact Hrun.
Qed.

Lemma readBatches_opened (b : Z) (Hb : 1 <= b) (fuel : nat) :
  forall (ls : list string) (this : LineReader.t),
    opened ls this ->
    (length ls < fuel)%nat ->
    exists batches this',
      readBatches LineReader.isEOF LineReader.readLines b fuel this
      = Some (batches, Normal tt, this')
      /\ concat batches = ls
      /\ Z.of_nat (length batches) = (Z.of_nat (length ls) + b - 1) / b
      /\ Forall (fun batch => 1 <= Z.of_nat (length batch) <= b) batches
      /\ (forall (i : nat) (batch : list string),
             (S i < length batches)%nat ->
             batches !! i = Some batch ->
             Z.of_nat (length batch) = b)
      /\ LineReader.isEOF this' = true.
Proof.
  induction fuel as [|fuel IH]; intros ls this Hop Hfuel; [lia|].
  destruct (readLines_loop_opened (Z.to_nat b) ls this [] Hop)
    as (this1 & Hread & _ & Hle & Hgt).
  change (LineReader.readLines b this = (Normal (take (Z.to_nat b) ls), this1))
    in Hread.
  simpl readBatches.
  replace (LineReader.isEOF this) with false by (symmetry; apply Hop).
  rewrite Hread.
  destruct (Nat.eqb_spec (length (take (Z.to_nat b) ls)) 0) as [Hempty|Hfull].
  - (* the first read is empty: there was no line left *)
    assert (ls = []) as ->.
    { rewrite length_take in Hempty. destruct ls; [reflexivity|simpl in Hempty; lia]. }
    exists [], this1. split; [reflexivity|]. split; [reflexivity|].
    split; [simpl; symmetry; apply Z.div_small; lia|].
    split; [constructor|]. split; [simpl; intros; lia|].
    apply Hgt. simpl. lia.
  - assert (length ls <> 0)%nat as Hne by (intros E; apply Hfull; rewrite length_take; lia).
    destruct (le_lt_dec (Z.to_nat b) (length ls)) as [Hfit|Hshort].
    + (* a full batch, and the session stays open *)
      destruct (IH (drop (Z.to_nat b) ls) this1 (Hle Hfit))
        as (batches & this' & Hrun & Hcat & Hlen & Hsz & Hinner & Heof).
      { rewrite length_drop. lia. }
      rewrite Hrun. exists (take (Z.to_nat b) ls :: batches), this'.
      split; [reflexivity|]. split; [simpl; rewrite Hcat; apply take_drop|].
      split.
      { simpl length. rewrite Nat2Z.inj_succ, Hlen, length_drop.
        replace (Z.of_nat (length ls) + b - 1)
          with ((Z.of_nat (length ls - Z.to_nat b) + b - 1) + 1 * b) by lia.
        rewrite Z.div_add by lia. lia. }
      split; [constructor; [rewrite length_take; lia|exact Hsz]|].
      split; [|exact Heof].
      intros [|i] batch Hi Hlk; simpl in Hi, Hlk.
      * inversion Hlk; subst. rewrite length_take. lia.
      * apply (Hinner i batch); [lia|exact Hlk].
    + (* the last, shorter batch: the read met the end and closed *)
      destruct (Hgt Hshort) as (_ & Hclosed & _).
      destruct fuel as [|fuel]; [lia|]. simpl readBatches.
      unfold LineReader.isEOF at 1. rewrite Hclosed.
      rewrite take_ge by lia. exists [ls], this1.
      split; [reflexivity|]. split; [simpl; apply app_nil_r|].
      split.
      { change (Z.of_nat (length [ls])) with 1.
        apply Z.div_unique with (r := Z.of_nat (length ls) - 1); lia. }
      split; [repeat constructor; lia|].
      split; [simpl; intros; lia|exact Hclosed].
Qed.

(** C9: over an open session with the lines [ls] left and a batch size
    [b >= 1], iterating [readBatches()] ends normally, with any fuel above N,
    after yielding ceil(N/b) batches: none is empty, their concatenation is
    [ls], and every batch but the last has exactly [b] lines. With five lines
    and batch size 2 the batches are [[L1,L2]], [[L3,L4]], [[L5]]. *)
Theorem readBatches_yields_all_lines :
  (forall (ls : list string) (this : LineReader.t) (b : Z),
      opened ls this ->
      1 <= b ->
      exists batches this',
        (forall fuel : nat,
            (length ls < fuel)%nat ->
            readBatches LineReader.isEOF LineReader.readLines b fuel this
            = Some (batches, Normal tt, this'))
        /\ concat batches = ls
        /\ Z.of_nat (length batches) = (Z.of_nat (length ls) + b - 1) / b
        /\ Forall (fun batch => 1 <= Z.of_nat (length batch) <= b) batches
        /\ (forall (i : nat) (batch : list string),
               (S i < length batches)%nat ->
               batches !! i = Some batch ->
               Z.of_nat (length batch) = b)
        /\ LineReader.isEOF this' = true)
  /\ (forall (L1 L2 L3 L4 L5 : string) (this : LineReader.t),
        opened [L1; L2; L3; L4; L5] this ->
        exists this',
          readBatches LineReader.isEOF LineReader.readLines 2 6 this
          = Some ([[L1; L2]; [L3; L4]; [L5]], Normal tt, this')).
Proof.
  split.
  - intros ls this b Hop Hb.
    destruct (readBatches_opened b Hb (S (length ls)) ls this Hop)
      as (batches & this' & Hrun & Hrest); [lia|].
    exists batches, this'. split; [|exact Hrest].
    intros fuel Hfuel.
    apply (readBatches_more_fuel _ _ _ _ _ _ Hrun). lia.
  - intros L1 L2 L3 L4 L5 this (Hrl & Hcl & Hit).
    destruct this as [fp rl0 it cl cur]. simpl in *. subst.
    eexists. reflexivity.
Qed.

(** * Properties of the indexed reader *)

Lemma foldl_delete_lookup (keys : list Z) :
  forall (c : gmap Z string) (k : Z) (v : string),
    foldl (fun c key => delete key c) c keys !! k = Some v -> c !! k = Some v.
Proof.
  induction keys as [|key keys IH]; intros c k v H; [exact H|].
  simpl in H. apply IH in H. apply lookup_delete_Some in H. apply H.
Qed.

(** [manageCache] only touches the cache, and only removes entries. *)
Lemma manageCache_shrinks (this : EnhancedLineReader.t) :
  EnhancedLineReader.super (EnhancedLineReader.manageCache this)
  = EnhancedLineReader.super this
  /\ EnhancedLineReader.cacheSize (EnhancedLineReader.manageCache this)
     = EnhancedLineReader.cacheSize this
  /\ EnhancedLineReader.linePointer (EnhancedLineReader.manageCache this)
     = EnhancedLineReader.linePointer this
  /\ forall (k : Z) (v : string),
       EnhancedLineReader.cache (EnhancedLineReader.manageCache this) !! k = Some v ->
       EnhancedLineReader.cache this !! k = Some v.
Proof.
  unfold EnhancedLineReader.manageCache.
  destruct (_ >? _); simpl; repeat split; auto.
  intros k v. apply foldl_delete_lookup.
Qed.

Lemma consistent_fresh (ls : list string) (options_cacheSize : option Z) :
  consistent ls
    (snd (EnhancedLineReader.open
            (EnhancedLineReader.constructor (map Line ls) options_cacheSize))).
Proof.
  split; [reflexivity|]. split; [intros k v H; simpl in H; discriminate|].
  split; [simpl; lia|]. left. repeat split.
Qed.

(** Storing a line of the file under its own number keeps the session
    consistent, whatever [manageCache] evicts afterwards. *)
Lemma consistent_cache_set (ls : list string) (this : EnhancedLineReader.t)
    (k : Z) (l : string) :
  consistent ls this ->
  1 <= k ->
  ls !! Z.to_nat (k - 1) = Some l ->
  consistent ls
    (EnhancedLineReader.manageCache (EnhancedLineReader.cache_set k l this)).
Proof.
  intros (Hfp & Hcache & Hp & Hst) Hk Hl.
  destruct (manageCache_shrinks (EnhancedLineReader.cache_set k l this))
    as (Hsuper & _ & Hptr & Hsub).
  unfold consistent. rewrite Hsuper, Hptr.
  split; [exact Hfp|]. split; [|split; [exact Hp|exact Hst]].
  intros k' v Hlk. apply Hsub in Hlk. simpl in Hlk.
  apply lookup_insert_Some in Hlk as [[<- <-]|[_ Hlk]]; [auto|].
  now apply Hcache.
Qed.

Lemma readLine_indexed_some (ls : list string) (this : EnhancedLineReader.t)
    (l : string) :
  consistent ls this ->
  opened (drop (Z.to_nat (EnhancedLineReader.linePointer this)) ls)
    (EnhancedLineReader.super this) ->
  ls !! Z.to_nat (EnhancedLineReader.linePointer this) = Some l ->
  exists this',
    EnhancedLineReader.readLine this = (Normal (Some l), this')
    /\ consistent ls this'
    /\ EnhancedLineReader.linePointer this'
       = EnhancedLineReader.linePointer this + 1
    /\ opened (drop (Z.to_nat (EnhancedLineReader.linePointer this')) ls)
         (EnhancedLineReader.super this').
Proof.
  intros Hcons Hop Hl. pose proof Hcons as (Hfp & Hcache & Hp & _).
  rewrite (drop_S _ _ _ Hl) in Hop.
  destruct (readLine_opened_cons _ _ _ Hop) as (base & Hr & Hop' & Hfp').
  pose proof (lookup_lt_Some _ _ _ Hl) as Hlt.
  unfold EnhancedLineReader.readLine, bind, EnhancedLineReader.inherited.
  rewrite Hr. eexists. split; [reflexivity|].
  set (this1 := EnhancedLineReader.set_linePointer _ _).
  assert (consistent ls this1) as Hcons1.
  { split; [simpl; congruence|]. split; [exact Hcache|].
    split; [simpl; lia|]. left. simpl.
    replace (Z.to_nat (EnhancedLineReader.linePointer this + 1))
      with (S (Z.to_nat (EnhancedLineReader.linePointer this))) by lia.
    exact Hop'. }
  split.
  - apply consistent_cache_set; [exact Hcons1|simpl; lia|].
    simpl. replace (EnhancedLineReader.linePointer this + 1 - 1)
      with (EnhancedLineReader.linePointer this) by lia.
    exact Hl.
  - destruct (manageCache_shrinks
                (EnhancedLineReader.cache_set
                   (EnhancedLineReader.linePointer this1) l this1))
      as (Hsuper & _ & Hptr & _).
    rewrite Hsuper, Hptr. split; [reflexivity|]. simpl.
    replace (Z.to_nat (EnhancedLineReader.linePointer this + 1))
      with (S (Z.to_nat (EnhancedLineReader.linePointer this))) by lia.
    exact Hop'.
Qed.

Lemma readLine_indexed_end (ls : list string) (this : EnhancedLineReader.t) :
  consistent ls this ->
  opened (drop (Z.to_nat (EnhancedLineReader.linePointer this)) ls)
    (EnhancedLineReader.super this) ->
  ls !! Z.to_nat (EnhancedLineReader.linePointer this) = None ->
  exists this',
    EnhancedLineReader.readLine this = (Normal None, this')
    /\ consistent ls this'
    /\ released (EnhancedLineReader.super this').
Proof.
  intros (Hfp & Hcache & Hp & _) Hop Hl.
  apply lookup_ge_None in Hl. rewrite drop_ge in Hop by exact Hl.
  destruct (readLine_opened_nil _ Hop) as (Hr & Hrel & Hfp').
  unfold EnhancedLineReader.readLine, bind, EnhancedLineReader.inherited.
  rewrite Hr. eexists. split; [reflexivity|]. split; [|exact Hrel].
  split; [simpl; congruence|]. split; [exact Hcache|].
  split; [exact Hp|]. right. split; [exact Hrel|]. simpl. lia.
Qed.

Lemma readLine_indexed_released (this : EnhancedLineReader.t) :
  released (EnhancedLineReader.super this) ->
  EnhancedLineReader.readLine this = (Throw NotOpen, this).
Proof.
  intros (Hrl & _). unfold EnhancedLineReader.readLine, bind,
    EnhancedLineReader.inherited.
  rewrite (readLine_no_handle _ Hrl). now destruct this.
Qed.

Lemma skipLines_loop_released (n : nat) (skipped : Z)
    (this : EnhancedLineReader.t) :
  released (EnhancedLineReader.super this) ->
  snd (skipLines_loop EnhancedLineReader.readLine n skipped this) = this.
Proof.
  intros Hrel. destruct n as [|n]; [reflexivity|].
  simpl. unfold bind. now rewrite (readLine_indexed_released _ Hrel).
Qed.

Lemma skipLines_loop_indexed (ls : list string) (n : nat) :
  forall (this : EnhancedLineReader.t) (skipped : Z),
    consistent ls this ->
    opened (drop (Z.to_nat (EnhancedLineReader.linePointer this)) ls)
      (EnhancedLineReader.super this) ->
    exists (result : Z) (this' : EnhancedLineReader.t),
      skipLines_loop EnhancedLineReader.readLine n skipped this
      = (Normal result, this')
      /\ consistent ls this'
      /\ (EnhancedLineReader.linePointer this + Z.of_nat n
          <= Z.of_nat (length ls) ->
          EnhancedLineReader.linePointer this'
          = EnhancedLineReader.linePointer this + Z.of_nat n
          /\ opened (drop (Z.to_nat (EnhancedLineReader.linePointer this')) ls)
               (EnhancedLineReader.super this'))
      /\ (Z.of_nat (length ls)
          < EnhancedLineReader.linePointer this + Z.of_nat n ->
          released (EnhancedLineReader.super this')).
Proof.
  induction n as [|n IH]; intros this skipped Hcons Hop.
  - exists skipped, this. split; [reflexivity|]. split; [exact Hcons|].
    split; [intros _; split; [lia|exact Hop]|].
    destruct Hcons as (_ & _ & Hp & _). lia.
  - destruct (ls !! Z.to_nat (EnhancedLineReader.linePointer this)) as [l|] eqn:Hl.
    + destruct (readLine_indexed_some ls this l Hcons Hop Hl)
        as (this1 & Hr & Hcons1 & Hp1 & Hop1).
      destruct (IH this1 (skipped + 1) Hcons1 Hop1)
        as (result & this' & Hs & Hcons' & Hle & Hgt).
      exists result, this'. simpl. unfold bind. rewrite Hr.
      split; [exact Hs|]. split; [exact Hcons'|].
      split; intros H.
      * destruct Hle as (Hp' & Hop'); [lia|]. split; [lia|exact Hop'].
      * apply Hgt. lia.
    + destruct (readLine_indexed_end ls this Hcons Hop Hl)
        as (this1 & Hr & Hcons1 & Hrel1).
      exists skipped, this1. simpl. unfold bind. rewrite Hr.
      split; [reflexivity|]. split; [exact Hcons1|].
      apply lookup_ge_None in Hl. destruct Hcons as (_ & _ & Hp & _).
      split; intros H; [lia|exact Hrel1].
Qed.

Lemma restart_consistent (ls : list string) (this : EnhancedLineReader.t) :
  consistent ls this ->
  exists this',
    (await _ := EnhancedLineReader.restart in
     fun this => (Normal tt, EnhancedLineReader.set_linePointer 0 this)) this
    = (Normal tt, this')
    /\ consistent ls this'
    /\ EnhancedLineReader.linePointer this' = 0
    /\ opened ls (EnhancedLineReader.super this').
Proof.
  intros (Hfp & Hcache & Hp & Hst).
  unfold bind, EnhancedLineReader.restart, EnhancedLineReader.inherited,
    LineReader.restart.
  assert (LineReader.rl (LineReader.close (EnhancedLineReader.super this)) = None
          /\ LineReader.filePath (LineReader.close (EnhancedLineReader.super this))
             = map Line ls) as (Hrl & Hfp').
  { destruct Hst as [(_ & Hcl & _)|((Hrl & Hcl & _) & _)];
      unfold LineReader.close; rewrite Hcl; simpl; auto. }
  unfold LineReader.open. simpl. rewrite Hrl, Hfp'.
  eexists. split; [reflexivity|].
  assert (opened ls
            (LineReader.mk (map Line ls) (Some ReadlineInterface)
               (Some (map Line ls)) false
               (LineReader.currentLine
                  (LineReader.close (EnhancedLineReader.super this)))))
    as Hop by (repeat split).
  split; [|split; [reflexivity|exact Hop]].
  split; [reflexivity|]. split; [exact Hcache|]. split; [simpl; lia|].
  left. exact Hop.
Qed.

(** The forward part of [readLineAt]: skip up to the line, read it, cache it. *)
Lemma readLineAt_forward (ls : list string) (lineNumber : Z)
    (this : EnhancedLineReader.t) :
  consistent ls this ->
  EnhancedLineReader.linePointer this < lineNumber ->
  forall r,
    r = (await _ := (fun this =>
                       EnhancedLineReader.skipLines
                         (lineNumber - EnhancedLineReader.linePointer this - 1)
                         this) in
         await line := EnhancedLineReader.readLine in
         match line with
         | Some l => fun this =>
             (Normal line,
              EnhancedLineReader.manageCache
                (EnhancedLineReader.cache_set lineNumber l this))
         | None => ret line
         end) this ->
    consistent ls (snd r)
    /\ (opened (drop (Z.to_nat (EnhancedLineReader.linePointer this)) ls)
          (EnhancedLineReader.super this) ->
        lineNumber <= Z.of_nat (length ls) ->
        exists l,
          ls !! Z.to_nat (lineNumber - 1) = Some l
          /\ fst r = Normal (Some l)).
Proof.
  intros Hcons Hlt r Hr. pose proof Hcons as (_ & _ & Hp & Hst).
  unfold bind, EnhancedLineReader.skipLines, skipLines_of in Hr.
  set (n := Z.to_nat (lineNumber - EnhancedLineReader.linePointer this - 1)) in Hr.
  destruct Hst as [Hop|(Hrel & HpN)].
  - destruct (skipLines_loop_indexed ls n this 0 Hcons Hop)
      as (result & this1 & Hskip & Hcons1 & Hle & Hgt).
    rewrite Hskip in Hr.
    destruct (Z_le_gt_dec (EnhancedLineReader.linePointer this + Z.of_nat n)
                (Z.of_nat (length ls))) as [Hfit|Hover].
    + destruct (Hle Hfit) as (Hp1 & Hop1).
      assert (EnhancedLineReader.linePointer this1 = lineNumber - 1) as Hp1'
          by lia.
      destruct (ls !! Z.to_nat (EnhancedLineReader.linePointer this1)) as [l|] eqn:Hl.
      * destruct (readLine_indexed_some ls this1 l Hcons1 Hop1 Hl)
          as (this2 & Hread & Hcons2 & _).
        rewrite Hread in Hr. subst r. rewrite Hp1' in Hl. simpl.
        split; [|intros _ _; now exists l].
        apply consistent_cache_set; [exact Hcons2|lia|exact Hl].
      * destruct (readLine_indexed_end ls this1 Hcons1 Hop1 Hl)
          as (this2 & Hread & Hcons2 & _).
        rewrite Hread in Hr. subst r. simpl. split; [exact Hcons2|].
        intros _ HN. apply lookup_ge_None in Hl. lia.
    + rewrite (readLine_indexed_released this1 (Hgt ltac:(lia))) in Hr.
      subst r. simpl. split; [exact Hcons1|]. intros _ HN. lia.
  - pose proof (skipLines_loop_released n 0 this Hrel) as Hsame.
    destruct (skipLines_loop EnhancedLineReader.readLine n 0 this)
      as [[result|e] this1]; simpl in Hsame; subst this1.
    + rewrite (readLine_indexed_released this Hrel) in Hr. subst r. simpl.
      split; [exact Hcons|]. intros (Hrl & _). destruct Hrel as (Hrl' & _).
      congruence.
    + subst r. simpl.
      split; [exact Hcons|]. intros (Hrl & _). destruct Hrel as (Hrl' & _).
      congruence.
Qed.

(** [readLineAt] keeps the session consistent, and returns line [lineNumber]
    of the file whenever the file has one. *)
Lemma readLineAt_consistent (ls : list string) (lineNumber : Z)
    (this : EnhancedLineReader.t) :
  consistent ls this ->
  consistent ls (snd (EnhancedLineReader.readLineAt lineNumber this))
  /\ (1 <= lineNumber <= Z.of_nat (length ls) ->
      exists l,
        ls !! Z.to_nat (lineNumber - 1) = Some l
        /\ fst (EnhancedLineReader.readLineAt lineNumber this) = Normal (Some l)).
Proof.
  intros Hcons. pose proof Hcons as (_ & Hcache & Hp & Hst).
  unfold EnhancedLineReader.readLineAt.
  destruct (Z.ltb_spec lineNumber 1) as [Hlow|Hpos].
  { split; [exact Hcons|]. intros H. lia. }
  destruct (EnhancedLineReader.cache this !! lineNumber) as [v|] eqn:Hhit.
  { split; [exact Hcons|]. intros _. exists v. split; [|reflexivity].
    now apply Hcache. }
  match goal with
  | |- consistent ls (snd ?x) /\ _ => remember x as r eqn:Hr
  end.
  unfold bind at 1 in Hr. cbv beta in Hr.
  destruct (Z.leb_spec lineNumber (EnhancedLineReader.linePointer this))
    as [Hback|Hfwd].
  - destruct (restart_consistent ls this Hcons)
      as (this1 & Hrestart & Hcons1 & Hp1 & Hop1).
    rewrite Hrestart in Hr.
    destruct (readLineAt_forward ls lineNumber this1 Hcons1 ltac:(lia) r Hr)
      as (Hc & Hv).
    split; [exact Hc|]. intros H. apply Hv; [|lia].
    rewrite Hp1. exact Hop1.
  - destruct (readLineAt_forward ls lineNumber this Hcons ltac:(lia) r Hr)
      as (Hc & Hv).
    split; [exact Hc|]. intros H. apply Hv; [|lia].
    destruct Hst as [Hop|(_ & HpN)]; [exact Hop|lia].
Qed.

Lemma readLine_indexed_consistent (ls : list string)
    (this : EnhancedLineReader.t) :
  consistent ls this ->
  consistent ls (snd (EnhancedLineReader.readLine this)).
Proof.
  intros Hcons. pose proof Hcons as (_ & _ & _ & [Hop|(Hrel & _)]).
  - destruct (ls !! Z.to_nat (EnhancedLineReader.linePointer this)) as [l|] eqn:Hl.
    + destruct (readLine_indexed_some ls this l Hcons Hop Hl) as (? & -> & H & _).
      exact H.
    + destruct (readLine_indexed_end ls this Hcons Hop Hl) as (? & -> & H & _).
      exact H.
  - now rewrite (readLine_indexed_released this Hrel).
Qed.

Lemma after_calls_consistent (ls : list string) (cs : list call) :
  forall this : EnhancedLineReader.t,
    consistent ls this -> consistent ls (after_calls this cs).
Proof.
  induction cs as [|c cs IH]; intros this Hcons; [exact Hcons|].
  apply IH. destruct c as [|lineNumber]; simpl.
  - now apply readLine_indexed_consistent.
  - now apply readLineAt_consistent.
Qed.

(** C1: on an indexed reader over a file with N lines that was opened and
    then used through any calls of [readLine] and [readLineAt], in any order
    and with any arguments, and with any cache size, [readLineAt(n)] for
    [1 <= n <= N] returns what the [n]-th of [n] sequential [readLine()]
    calls on a freshly opened reader of the file returns: line [n]. *)
Theorem readLineAt_is_nth_sequential_read (ls : list string)
    (options_cacheSize : option Z) (cs : list call) (n : Z) :
  1 <= n <= Z.of_nat (length ls) ->
  exists (this0 this : EnhancedLineReader.t) (plain0 plain : LineReader.t)
         (sequential : list (completion (option string))) (l : string),
    EnhancedLineReader.open
      (EnhancedLineReader.constructor (map Line ls) options_cacheSize)
    = (Normal tt, this0)
    /\ after_calls this0 cs = this
    /\ LineReader.open (LineReader.constructor (map Line ls))
       = (Normal tt, plain0)
    /\ readLine_times LineReader.readLine (Z.to_nat n) plain0
       = (sequential, plain)
    /\ last sequential = Some (Normal (Some l))
    /\ ls !! Z.to_nat (n - 1) = Some l
    /\ fst (EnhancedLineReader.readLineAt n this) = Normal (Some l).
Proof.
  intros Hn.
  pose proof (after_calls_consistent ls cs _
                (consistent_fresh ls options_cacheSize)) as Hcons.
  destruct (readLineAt_consistent ls n _ Hcons) as (_ & Hv).
  destruct (Hv Hn) as (l & Hl & Hres).
  destruct (readLine_times_prefix (Z.to_nat n) ls _ (opened_fresh ls))
    as (plain & Hrun & _); [lia|].
  do 5 eexists. exists l.
  split; [reflexivity|]. split; [reflexivity|]. split; [reflexivity|].
  split; [exact Hrun|]. split; [|split; [exact Hl|exact Hres]].
  replace (Z.to_nat n) with (S (Z.to_nat (n - 1))) by lia.
  rewrite (take_S_r _ _ _ Hl), map_app. apply last_snoc.
Qed.

(** ** The cache *)

Lemma sorted_keys_elem_of (c : gmap Z string) (k : Z) :
  k ∈ EnhancedLineReader.sorted_keys c <-> is_Some (c !! k).
Proof.
  unfold EnhancedLineReader.sorted_keys. rewrite merge_sort_Permutation.
  change (map fst (map_to_list c)) with ((map_to_list c).*1).
  rewrite list_elem_of_fmap. split.
  - intros ([k' v] & -> & H). apply elem_of_map_to_list in H. now exists v.
  - intros [v H]. exists (k, v). split; [reflexivity|].
    now apply elem_of_map_to_list.
Qed.

Lemma sorted_keys_NoDup (c : gmap Z string) :
  NoDup (EnhancedLineReader.sorted_keys c).
Proof.
  unfold EnhancedLineReader.sorted_keys. rewrite merge_sort_Permutation.
  apply (NoDup_fst_map_to_list c).
Qed.

Lemma sorted_keys_length (c : gmap Z string) :
  length (EnhancedLineReader.sorted_keys c) = size c.
Proof.
  unfold EnhancedLineReader.sorted_keys. rewrite merge_sort_Permutation.
  rewrite length_map. apply length_map_to_list.
Qed.

Lemma sorted_keys_sorted (c : gmap Z string) :
  StronglySorted Z.le (EnhancedLineReader.sorted_keys c).
Proof. apply StronglySorted_merge_sort; apply _. Qed.

Lemma foldl_delete_lookup_elem (keys : list Z) :
  forall (c : gmap Z string) (k : Z),
    k ∈ keys -> foldl (fun c key => delete key c) c keys !! k = None.
Proof.
  induction keys as [|key keys IH]; intros c k Hin; [inversion Hin|].
  simpl. destruct (decide (k ∈ keys)) as [Hk|Hk]; [now apply IH|].
  apply elem_of_cons in Hin as [->|Hin]; [|contradiction].
  destruct (foldl _ (delete key c) keys !! key) as [v|] eqn:E; [|reflexivity].
  apply foldl_delete_lookup in E. rewrite lookup_delete_eq in E. discriminate.
Qed.

Lemma foldl_delete_lookup_other (keys : list Z) :
  forall (c : gmap Z string) (k : Z),
    k ∉ keys -> foldl (fun c key => delete key c) c keys !! k = c !! k.
Proof.
  induction keys as [|key keys IH]; intros c k Hout; [reflexivity|].
  apply not_elem_of_cons in Hout as [Hne Hout]. simpl.
  rewrite (IH _ _ Hout). now apply lookup_delete_ne.
Qed.

Lemma foldl_delete_size (keys : list Z) :
  forall c : gmap Z string,
    NoDup keys ->
    (forall k, k ∈ keys -> is_Some (c !! k)) ->
    (size (foldl (fun c key => delete key c) c keys) + length keys)%nat
    = size c.
Proof.
  induction keys as [|key keys IH]; intros c Hnd Hin; [simpl; lia|].
  apply NoDup_cons in Hnd as [Hfresh Hnd]. simpl.
  assert (is_Some (c !! key)) as Hkey by (apply Hin; left).
  rewrite Nat.add_succ_r, IH; [|exact Hnd|].
  - rewrite (map_size_delete_Some _ _ Hkey).
    pose proof (map_size_ne_0_lookup_2 c key Hkey). lia.
  - intros k Hk. rewrite lookup_delete_ne; [apply Hin; now right|].
    intros ->. contradiction.
Qed.

(** What an eviction does: the sorted keys split into the lowest
    [floor(cacheSize / 2)] ones, which leave the cache, and the higher ones,
    which stay with their lines. *)
Lemma manageCache_evicts (this : EnhancedLineReader.t) :
  0 <= EnhancedLineReader.cacheSize this ->
  EnhancedLineReader.cacheSize this
  < Z.of_nat (size (EnhancedLineReader.cache this)) ->
  exists removed kept : list Z,
    EnhancedLineReader.sorted_keys (EnhancedLineReader.cache this)
    = removed ++ kept
    /\ Z.of_nat (length removed) = EnhancedLineReader.cacheSize this / 2
    /\ (forall k k', k ∈ removed -> k' ∈ kept -> k < k')
    /\ (forall k, k ∈ removed ->
          EnhancedLineReader.cache (EnhancedLineReader.manageCache this) !! k
          = None)
    /\ (forall k, k ∉ removed ->
          EnhancedLineReader.cache (EnhancedLineReader.manageCache this) !! k
          = EnhancedLineReader.cache this !! k)
    /\ (size (EnhancedLineReader.cache (EnhancedLineReader.manageCache this))
        + length removed)%nat
       = size (EnhancedLineReader.cache this).
Proof.
  intros Hcs Hover.
  set (c := EnhancedLineReader.cache this) in *.
  set (h := Z.to_nat (EnhancedLineReader.cacheSize this / 2)).
  assert (0 <= EnhancedLineReader.cacheSize this / 2
          <= EnhancedLineReader.cacheSize this) as Hh.
  { split; [apply Z.div_pos; lia|]. apply Z.div_le_upper_bound; lia. }
  assert (EnhancedLineReader.cache (EnhancedLineReader.manageCache this)
          = foldl (fun c key => delete key c) c
              (take h (EnhancedLineReader.sorted_keys c))) as Hcache.
  { unfold EnhancedLineReader.manageCache. fold c.
    destruct (Z.gtb_spec (Z.of_nat (size c)) (EnhancedLineReader.cacheSize this));
      [|lia].
    simpl. unfold EnhancedLineReader.slice0.
    destruct (Z.ltb_spec (EnhancedLineReader.cacheSize this / 2) 0); [lia|].
    reflexivity. }
  pose proof (sorted_keys_NoDup c) as Hnd.
  pose proof (sorted_keys_sorted c) as Hsorted.
  pose proof (sorted_keys_length c) as Hlen.
  rewrite <- (take_drop h (EnhancedLineReader.sorted_keys c)) in Hnd, Hsorted.
  apply NoDup_app in Hnd as (Hnd1 & Hdisj & _).
  apply StronglySorted_app in Hsorted as (Hle & _ & _).
  exists (take h (EnhancedLineReader.sorted_keys c)),
    (drop h (EnhancedLineReader.sorted_keys c)).
  split; [symmetry; apply take_drop|].
  split; [rewrite length_take; lia|].
  split.
  { intros k k' Hk Hk'. pose proof (Hle k k' Hk Hk').
    assert (k <> k') by (intros ->; now apply (Hdisj k')). lia. }
  rewrite Hcache.
  split; [intros k; apply foldl_delete_lookup_elem|].
  split; [intros k; apply foldl_delete_lookup_other|].
  apply foldl_delete_size; [exact Hnd1|].
  intros k Hk. apply sorted_keys_elem_of. now apply (subseteq_take h).
Qed.

Lemma manageCache_bounded (capacity : Z) (this : EnhancedLineReader.t) :
  EnhancedLineReader.cacheSize this = capacity ->
  2 <= capacity ->
  Z.of_nat (size (EnhancedLineReader.cache this)) <= capacity + 1 ->
  bounded capacity (EnhancedLineReader.manageCache this).
Proof.
  intros Hcap Hcs Hsize. subst capacity.
  destruct (manageCache_shrinks this) as (_ & Hsame & _).
  split; [exact Hsame|]. split; [exact Hcs|].
  destruct (Z_lt_le_dec (EnhancedLineReader.cacheSize this)
              (Z.of_nat (size (EnhancedLineReader.cache this)))) as [Hover|Hfit].
  - destruct (manageCache_evicts this ltac:(lia) Hover)
      as (removed & kept & _ & Hh & _ & _ & _ & Hsz).
    assert (1 <= EnhancedLineReader.cacheSize this / 2)
      by (apply Z.div_le_lower_bound; lia).
    lia.
  - unfold EnhancedLineReader.manageCache.
    destruct (Z.gtb_spec (Z.of_nat (size (EnhancedLineReader.cache this)))
                (EnhancedLineReader.cacheSize this)); [lia|exact Hfit].
Qed.

Lemma cache_set_bounded (capacity : Z) (this : EnhancedLineReader.t)
    (k : Z) (l : string) :
  bounded capacity this ->
  bounded capacity
    (EnhancedLineReader.manageCache (EnhancedLineReader.cache_set k l this)).
Proof.
  intros (Hcap & Hcs & Hsize).
  apply manageCache_bounded; simpl; [exact Hcap|exact Hcs|].
  rewrite map_size_insert.
  destruct (EnhancedLineReader.cache this !! k); simpl; lia.
Qed.

(** A loop of [readLine] calls keeps what every [readLine] call keeps. *)
Lemma skipLines_loop_preserves {R : Type} (readLine : M R (option string))
    (P : R -> Prop) (n : nat) :
  (forall r, P r -> P (snd (readLine r))) ->
  forall (r : R) (skipped : Z),
    P r -> P (snd (skipLines_loop readLine n skipped r)).
Proof.
  intros Hstep. induction n as [|n IH]; intros r skipped Hr; [exact Hr|].
  simpl. unfold bind. pose proof (Hstep r Hr) as Hr1.
  destruct (readLine r) as [[[l|]|e] r1]; simpl in Hr1; try exact Hr1.
  now apply IH.
Qed.

Lemma readLine_bounded (capacity : Z) (this : EnhancedLineReader.t) :
  bounded capacity this ->
  bounded capacity (snd (EnhancedLineReader.readLine this)).
Proof.
  intros Hb. unfold EnhancedLineReader.readLine, bind,
    EnhancedLineReader.inherited.
  destruct (LineReader.readLine (EnhancedLineReader.super this))
    as [[[l|]|e] base]; simpl; try exact Hb.
  apply (cache_set_bounded capacity
           (EnhancedLineReader.set_linePointer
              (EnhancedLineReader.linePointer this + 1)
              (EnhancedLineReader.mk base (EnhancedLineReader.cache this)
                 (EnhancedLineReader.cacheSize this)
                 (EnhancedLineReader.linePointer this)))).
  exact Hb.
Qed.

Lemma readLineAt_bounded (capacity : Z) (lineNumber : Z)
    (this : EnhancedLineReader.t) :
  bounded capacity this ->
  bounded capacity (snd (EnhancedLineReader.readLineAt lineNumber this)).
Proof.
  intros Hb. unfold EnhancedLineReader.readLineAt.
  destruct (lineNumber <? 1); [exact Hb|].
  destruct (EnhancedLineReader.cache this !! lineNumber); [exact Hb|].
  unfold bind at 1. cbv beta.
  match goal with
  | |- context [if lineNumber <=? ?p then ?a else ?b] =>
      set (first := if lineNumber <=? p then a else b)
  end.
  assert (bounded capacity (snd first)) as Hb1.
  { subst first. destruct (_ <=? _); [|exact Hb].
    unfold bind, EnhancedLineReader.restart, EnhancedLineReader.inherited.
    destruct (LineReader.restart (EnhancedLineReader.super this))
      as [[[]|e] base]; exact Hb. }
  destruct first as [[[]|e] this1]; simpl in Hb1; [|exact Hb1].
  unfold bind at 1.
  pose proof (skipLines_loop_preserves EnhancedLineReader.readLine
                (bounded capacity)
                (Z.to_nat (lineNumber - EnhancedLineReader.linePointer this1 - 1))
                (readLine_bounded capacity) this1 0 Hb1) as Hb2.
  fold (skipLines_of EnhancedLineReader.readLine
          (lineNumber - EnhancedLineReader.linePointer this1 - 1)) in Hb2.
  fold EnhancedLineReader.skipLines in Hb2.
  destruct (EnhancedLineReader.skipLines _ this1) as [[skipped|e] this2];
    simpl in Hb2; [|exact Hb2].
  unfold bind. pose proof (readLine_bounded capacity this2 Hb2) as Hb3.
  destruct (EnhancedLineReader.readLine this2) as [[[l|]|e] this3];
    simpl in Hb3; simpl; try exact Hb3.
  now apply cache_set_bounded.
Qed.

(** The capacity bound, for every capacity from two on: whatever the file
    delivers and whatever calls are made, the cache never holds more than
    [cacheSize] entries between calls. *)
Lemma cache_bounded_from_two (fp : list chunk) (capacity : Z) (cs : list call) :
  2 <= capacity ->
  Z.of_nat
    (size (EnhancedLineReader.cache
             (after_calls
                (snd (EnhancedLineReader.open
                        (EnhancedLineReader.constructor fp (Some capacity))))
                cs)))
  <= capacity.
Proof.
  intros Hcap.
  set (this0 := snd (EnhancedLineReader.open _)).
  assert (bounded capacity this0) as Hinit.
  { subst this0. unfold EnhancedLineReader.open, EnhancedLineReader.inherited.
    simpl. destruct (Z.eqb_spec capacity 0); [lia|].
    split; [reflexivity|split; [exact Hcap|]].
    simpl. rewrite map_size_empty. lia. }
  revert Hinit. generalize this0. clear this0.
  induction cs as [|c cs IH]; intros this Hb.
  - apply Hb.
  - simpl. apply IH. destruct c as [|lineNumber]; simpl.
    + now apply readLine_bounded.
    + now apply readLineAt_bounded.
Qed.

(** ** The example of the test file *)

(** C4 (as the code has it): on a freshly opened indexed reader over the five
    test lines, [readLineAt(3)] returns "Charlie" and leaves the counter at 3
    with the lines 1 to 3 cached; then [readLineAt(1)] returns "Alpha" and
    [readLineAt(2)] returns "Bravo", both from the cache: neither restarts,
    neither changes the reader, and the counter stays 3. *)
Theorem readLineAt_example :
  exists this0 this1 : EnhancedLineReader.t,
    EnhancedLineReader.open
      (EnhancedLineReader.constructor (map Line TEST_LINES) None)
    = (Normal tt, this0)
    /\ EnhancedLineReader.readLineAt 3 this0 = (Normal (Some "Charlie"), this1)
    /\ EnhancedLineReader.getCurrentLineNumber this1 = 3
    /\ EnhancedLineReader.cache this1
       = <[3 := "Charlie"]> (<[2 := "Bravo"]> (<[1 := "Alpha"]> ∅))
    /\ EnhancedLineReader.readLineAt 1 this1 = (Normal (Some "Alpha"), this1)
    /\ EnhancedLineReader.readLineAt 2 this1 = (Normal (Some "Bravo"), this1).
Proof.
  eexists. eexists. split; [reflexivity|]. split; [vm_compute; reflexivity|].
  repeat split; vm_compute; reflexivity.
Qed.

(** C5 (failing input): with [cacheSize] 1 the eviction removes
    [floor(1/2) = 0] keys: after two [readLine()] calls on the test file the
    cache holds two entries, more than the capacity, and [manageCache]
    leaves it so. *)
Theorem cache_of_capacity_one_overflows :
  exists this0 this2 : EnhancedLineReader.t,
    EnhancedLineReader.open
      (EnhancedLineReader.constructor (map Line TEST_LINES) (Some 1))
    = (Normal tt, this0)
    /\ after_calls this0 [CallReadLine; CallReadLine] = this2
    /\ EnhancedLineReader.cacheSize this2 = 1
    /\ size (EnhancedLineReader.cache this2) = 2%nat
    /\ EnhancedLineReader.sorted_keys (EnhancedLineReader.cache this2) = [1; 2]
    /\ EnhancedLineReader.manageCache this2 = this2.
Proof.
  eexists. eexists. split; [reflexivity|]. split; [reflexivity|].
  repeat split; vm_compute; reflexivity.
Qed.

(** * Concrete runs *)

(** C1 at a concrete input: capacity 2, after a read past the middle, a
    sequential read and a backward read, line 2 is still "Bravo". *)
Lemma readLineAt_is_nth_sequential_read_witness :
  1 <= 2 <= Z.of_nat (length TEST_LINES)
  /\ fst (EnhancedLineReader.readLineAt 2
            (after_calls
               (snd (EnhancedLineReader.open
                       (EnhancedLineReader.constructor (map Line TEST_LINES)
                          (Some 2))))
               [CallReadLineAt 4; CallReadLine; CallReadLineAt 1]))
     = Normal (Some "Bravo").
Proof.
  split; [simpl; lia|].
  destruct (readLineAt_is_nth_sequential_read TEST_LINES (Some 2)
              [CallReadLineAt 4; CallReadLine; CallReadLineAt 1] 2
              ltac:(simpl; lia))
    as (this0 & this & plain0 & plain & sequential & l
        & Hopen & Hcalls & _ & _ & _ & Hl & Hres).
  rewrite Hopen. simpl snd. rewrite Hcalls, Hres.
  simpl in Hl. congruence.
Defined.

(** C3, the claim at concrete inputs: a session closed by [close()], by the
    end of the stream or by a read fault makes the next [readLine()] throw
    the "not open" error instead of returning [null]. *)
Lemma readLine_after_close_counterexample :
  LineReader.isEOF
    (LineReader.close
       (snd (LineReader.open (LineReader.constructor [Line "a"])))) = true
  /\ fst (LineReader.readLine
            (LineReader.close
               (snd (LineReader.open (LineReader.constructor [Line "a"])))))
     = Throw NotOpen
  /\ readLine_times LineReader.readLine 3
       (snd (LineReader.open (LineReader.constructor [Line "a"])))
     = ([Normal (Some "a"); Normal None; Throw NotOpen],
        LineReader.mk [Line "a"] None None true (Some "a"))
  /\ readLine_times LineReader.readLine 2
       (snd (LineReader.open (LineReader.constructor [Fault "EIO"])))
     = ([Throw (IOFault "EIO"); Throw NotOpen],
        LineReader.mk [Fault "EIO"] None None true None).
Proof. repeat split. Qed.

Lemma readLine_on_closed_session_witness :
  LineReader.readLine
    (LineReader.close
       (snd (LineReader.open (LineReader.constructor [Line "a"]))))
  = (Throw NotOpen,
     LineReader.close
       (snd (LineReader.open (LineReader.constructor [Line "a"]))))
  /\ LineReader.readLine
       (snd (LineReader.open
               (LineReader.close (LineReader.constructor [Line "a"]))))
     = (Normal None,
        snd (LineReader.open
               (LineReader.close (LineReader.constructor [Line "a"]))))
  /\ LineReader.rl
       (LineReader.close
          (snd (LineReader.open (LineReader.constructor [Line "a"]))))
     = None.
Proof.
  split; [|split].
  - apply (proj1 (readLine_on_closed_session _)). reflexivity.
  - apply (proj1 (proj2 (readLine_on_closed_session _)));
      [simpl; discriminate|reflexivity].
  - apply (proj2 (proj2 (readLine_on_closed_session
                           (snd (LineReader.open
                                   (LineReader.constructor [Line "a"])))))).
    reflexivity.
Defined.

Lemma readLine_fault_closes_witness :
  exists this',
    LineReader.readLine
      (snd (LineReader.readLine
              (snd (LineReader.open
                      (LineReader.constructor
                         [Line "a"; Fault "EIO"; Line "b"])))))
    = (Throw (IOFault "EIO"), this')
    /\ LineReader.isEOF this' = true
    /\ LineReader.rl this' = None
    /\ LineReader.lineIterator this' = None
    /\ LineReader.readLine this' = (Throw NotOpen, this').
Proof.
  apply (readLine_fault_closes
           (snd (LineReader.readLine
                   (snd (LineReader.open
                           (LineReader.constructor
                              [Line "a"; Fault "EIO"; Line "b"])))))
           "EIO" [Line "b"]);
    [simpl; discriminate|reflexivity|reflexivity].
Defined.

Lemma skipLines_then_readLine_witness :
  opened TEST_LINES
    (snd (LineReader.open (LineReader.constructor (map Line TEST_LINES))))
  /\ 0 <= 2
  /\ exists this1 cs,
       LineReader.skipLines 2
         (snd (LineReader.open (LineReader.constructor (map Line TEST_LINES))))
       = (Normal 2, this1)
       /\ readLine_times LineReader.readLine 3
            (snd (LineReader.open
                    (LineReader.constructor (map Line TEST_LINES))))
          = (cs, snd (LineReader.readLine this1))
       /\ last cs = Some (fst (LineReader.readLine this1))
       /\ fst (LineReader.readLine this1) = Normal (Some "Charlie").
Proof.
  split; [apply opened_fresh|]. split; [lia|].
  destruct (proj1 (skipLines_then_readLine TEST_LINES _
                     (opened_fresh TEST_LINES)) 2 ltac:(lia))
    as (this1 & cs & Hskip & Hrun & Hlast & Hline).
  exists this1, cs. split; [exact Hskip|]. split; [exact Hrun|].
  split; [exact Hlast|]. apply Hline. simpl. lia.
Defined.

(** C8, the claim at a concrete input: [close()] on a never-opened session
    is not a no-op. It turns [isEOF()] from false to true, and a session
    opened after it reads [null] where it would have read the first line. *)
Lemma close_never_opened_counterexample :
  LineReader.isEOF (LineReader.constructor [Line "a"]) = false
  /\ LineReader.isEOF (LineReader.close (LineReader.constructor [Line "a"]))
     = true
  /\ fst (LineReader.readLine
            (snd (LineReader.open (LineReader.constructor [Line "a"]))))
     = Normal (Some "a")
  /\ fst (LineReader.readLine
            (snd (LineReader.open
                    (LineReader.close (LineReader.constructor [Line "a"])))))
     = Normal None.
Proof. repeat split. Qed.

Lemma open_twice_close_twice_witness :
  LineReader.open (snd (LineReader.open (LineReader.constructor [Line "a"])))
  = (Throw AlreadyOpen,
     snd (LineReader.open (LineReader.constructor [Line "a"])))
  /\ LineReader.close
       (LineReader.close
          (snd (LineReader.open (LineReader.constructor [Line "a"]))))
     = LineReader.close
         (snd (LineReader.open (LineReader.constructor [Line "a"]))).
Proof.
  split.
  - apply (proj1 (open_twice_close_twice _)). simpl. discriminate.
  - apply (proj1 (proj2 (open_twice_close_twice _))). reflexivity.
Defined.

Lemma readBatches_yields_all_lines_witness :
  opened TEST_LINES
    (snd (LineReader.open (LineReader.constructor (map Line TEST_LINES))))
  /\ 1 <= 2
  /\ exists this',
       readBatches LineReader.isEOF LineReader.readLines 2 6
         (snd (LineReader.open (LineReader.constructor (map Line TEST_LINES))))
       = Some ([["Alpha"; "Bravo"]; ["Charlie"; "Delta"]; ["Echo"]],
               Normal tt, this').
Proof.
  split; [apply opened_fresh|]. split; [lia|].
  apply (proj2 readBatches_yields_all_lines). apply opened_fresh.
Defined.

Lemma nonpositive_count_reads_nothing_witness :
  -1 <= 0
  /\ LineReader.skipLines (-1) (LineReader.constructor [Line "a"])
     = (Normal 0, LineReader.constructor [Line "a"])
  /\ LineReader.readLines (-1) (LineReader.constructor [Line "a"])
     = (Normal [], LineReader.constructor [Line "a"]).
Proof.
  split; [lia|].
  apply (proj1 (nonpositive_count_reads_nothing (-1) ltac:(lia))).
Defined.

(** C4, the claim at its own input: after [readLineAt(3)] and [readLineAt(1)]
    the counter is 3 and not 2, and [readLineAt(1)] did not restart: it left
    the reader as it was. *)
Lemma readLineAt_example_counterexample :
  EnhancedLineReader.getCurrentLineNumber
    (snd (EnhancedLineReader.readLineAt 1
            (snd (EnhancedLineReader.readLineAt 3
                    (snd (EnhancedLineReader.open
                            (EnhancedLineReader.constructor
                               (map Line TEST_LINES) None)))))))
  = 3
  /\ snd (EnhancedLineReader.readLineAt 1
            (snd (EnhancedLineReader.readLineAt 3
                    (snd (EnhancedLineReader.open
                            (EnhancedLineReader.constructor
                               (map Line TEST_LINES) None))))))
     = snd (EnhancedLineReader.readLineAt 3
              (snd (EnhancedLineReader.open
                      (EnhancedLineReader.constructor
                         (map Line TEST_LINES) None)))).
Proof. split; vm_compute; reflexivity. Qed.

(** * Further properties of the sequential reader *)

(** X1: on an open session with the lines [ls] left, [readLines(count)]
    returns the next [min(count, N)] lines in file order (none for a
    count that is not positive); the session stays open on the rest when the
    count fits, and is closed when the count goes past the end. *)
Theorem readLines_returns_next_lines (ls : list string) (this : LineReader.t)
    (count : Z) :
  opened ls this ->
  exists this',
    LineReader.readLines count this
    = (Normal (take (Z.to_nat count) ls), this')
    /\ Z.of_nat (length (take (Z.to_nat count) ls))
       = Z.max 0 (Z.min count (Z.of_nat (length ls)))
    /\ (count <= Z.of_nat (length ls) ->
        opened (drop (Z.to_nat count) ls) this')
    /\ (Z.of_nat (length ls) < count -> LineReader.isEOF this' = true).
Proof.
  intros Hop.
  destruct (readLines_loop_opened (Z.to_nat count) ls this [] Hop)
    as (this' & Hrun & _ & Hle & Hgt).
  exists this'. split; [exact Hrun|]. split; [rewrite length_take; lia|].
  split; intros H; [apply Hle|apply Hgt]; lia.
Qed.

Lemma readLines_returns_next_lines_witness :
  opened TEST_LINES
    (snd (LineReader.open (LineReader.constructor (map Line TEST_LINES))))
  /\ exists this',
       LineReader.readLines 3
         (snd (LineReader.open (LineReader.constructor (map Line TEST_LINES))))
       = (Normal ["Alpha"; "Bravo"; "Charlie"], this').
Proof.
  split; [apply opened_fresh|].
  destruct (readLines_returns_next_lines TEST_LINES _ 3
              (opened_fresh TEST_LINES)) as (this' & Hrun & _).
  exists this'. exact Hrun.
Defined.

Lemma loops_agree {R : Type} (readLine : M R (option string)) (n : nat) :
  forall (r : R) (skipped : Z) (lines : list string),
    skipped = Z.of_nat (length lines) ->
    snd (skipLines_loop readLine n skipped r)
    = snd (readLines_loop readLine n lines r)
    /\ counts (fst (skipLines_loop readLine n skipped r))
         (fst (readLines_loop readLine n lines r)).
Proof.
  induction n as [|n IH]; intros r skipped lines Hlen.
  - split; [reflexivity|exact Hlen].
  - simpl. unfold bind.
    destruct (readLine r) as [[[l|]|e] r1]; simpl.
    + apply IH. rewrite length_app. simpl. lia.
    + split; [reflexivity|exact Hlen].
    + split; reflexivity.
Qed.

(** X2: [skipLines(count)] is [readLines(count)] with the lines dropped: in
    every state of a sequential or an indexed reader, and over any stream,
    both leave the same state, and they either return [n] and [n] lines or
    throw the same error. *)
Theorem skipLines_counts_what_readLines_returns (count : Z) :
  (forall this : LineReader.t,
      snd (LineReader.skipLines count this)
      = snd (LineReader.readLines count this)
      /\ counts (fst (LineReader.skipLines count this))
           (fst (LineReader.readLines count this)))
  /\ (forall this : EnhancedLineReader.t,
        snd (EnhancedLineReader.skipLines count this)
        = snd (EnhancedLineReader.readLines count this)
        /\ counts (fst (EnhancedLineReader.skipLines count this))
             (fst (EnhancedLineReader.readLines count this))).
Proof.
  split; intros this; now apply loops_agree.
Qed.

(** ** Restart, reopening and release *)

Lemma restart_tidy (this : LineReader.t) :
  tidy this ->
  LineReader.restart this
  = (Normal tt,
     LineReader.mk (LineReader.filePath this) (Some ReadlineInterface)
       (Some (LineReader.filePath this)) false (LineReader.currentLine this)).
Proof.
  intros Ht. unfold LineReader.restart, LineReader.close.
  destruct (LineReader.isClosed this) eqn:Hcl; [|reflexivity].
  destruct (Ht Hcl) as (Hrl & _). unfold LineReader.open. simpl.
  now rewrite Hrl.
Qed.

(** X3: [restart()] rewinds whatever the position was. On a session whose
    closed flag, if set, goes with a released handle, it does not throw and
    leaves the session open at the start of the file with the last line read
    kept; on a fault-free file the next N+1 reads give the N lines from the
    first one on, then [null]. *)
Theorem restart_rewinds (ls : list string) (this : LineReader.t) :
  tidy this ->
  LineReader.filePath this = map Line ls ->
  exists this' this'',
    LineReader.restart this = (Normal tt, this')
    /\ opened ls this'
    /\ LineReader.currentLine this' = LineReader.currentLine this
    /\ readLine_times LineReader.readLine (S (length ls)) this'
       = (map (fun l => Normal (Some l)) ls ++ [Normal None], this'').
Proof.
  intros Ht Hfp. rewrite (restart_tidy this Ht), Hfp.
  assert (opened ls
            (LineReader.mk (map Line ls) (Some ReadlineInterface)
               (Some (map Line ls)) false (LineReader.currentLine this)))
    as Hop by (repeat split).
  destruct (readLine_times_opened ls _ Hop) as (this'' & Hrun & _).
  eexists. exists this''. split; [reflexivity|].
  split; [exact Hop|]. split; [reflexivity|exact Hrun].
Qed.

Lemma restart_rewinds_witness :
  exists this' this'',
    LineReader.restart
      (snd (LineReader.skipLines 3
              (snd (LineReader.open
                      (LineReader.constructor (map Line TEST_LINES))))))
    = (Normal tt, this')
    /\ readLine_times LineReader.readLine 6 this'
       = (map (fun l => Normal (Some l)) TEST_LINES ++ [Normal None], this'').
Proof.
  destruct (restart_rewinds TEST_LINES
              (snd (LineReader.skipLines 3
                      (snd (LineReader.open
                              (LineReader.constructor (map Line TEST_LINES))))))
              ltac:(intros H; simpl in H; discriminate) ltac:(reflexivity))
    as (this' & this'' & Hrestart & _ & _ & Hrun).
  exists this', this''. split; [exact Hrestart|exact Hrun].
Defined.

(** X4: [open()] on a closed session does not clear the closed flag. The
    session then holds a handle on the whole file but [readLine()] returns
    [null] without reading, [isEOF()] stays true, and [close()] returns at
    once and releases nothing. [restart()] on it throws the "already open"
    error, yet clears the flag on its way: afterwards the session reads the
    file from its first chunk. *)
Theorem open_after_close_stays_closed (this : LineReader.t) :
  released this ->
  exists reopened revived,
    LineReader.open this = (Normal tt, reopened)
    /\ LineReader.isEOF reopened = true
    /\ LineReader.readLine reopened = (Normal None, reopened)
    /\ LineReader.close reopened = reopened
    /\ LineReader.rl reopened = Some ReadlineInterface
    /\ LineReader.restart reopened = (Throw AlreadyOpen, revived)
    /\ reading (LineReader.filePath this) revived.
Proof.
  intros (Hrl & Hcl & Hit).
  destruct this as [fp rl0 it cl cur]. simpl in *. subst.
  do 2 eexists. repeat split.
Qed.

Lemma open_after_close_stays_closed_witness :
  released
    (LineReader.close
       (snd (LineReader.open (LineReader.constructor [Line "a"]))))
  /\ fst (LineReader.readLine
            (snd (LineReader.open
                    (LineReader.close
                       (snd (LineReader.open
                               (LineReader.constructor [Line "a"])))))))
     = Normal None.
Proof.
  split; [repeat split|].
  destruct (open_after_close_stays_closed
              (LineReader.close
                 (snd (LineReader.open (LineReader.constructor [Line "a"]))))
              ltac:(repeat split))
    as (reopened & revived & Hopen & _ & Hread & _).
  rewrite Hopen. simpl snd. now rewrite Hread.
Defined.

Lemma readLine_tidy (this : LineReader.t) :
  tidy this -> tidy (snd (LineReader.readLine this)).
Proof.
  intros Ht. unfold LineReader.readLine.
  destruct (LineReader.rl this) eqn:Hrl; [|exact Ht].
  destruct (LineReader.isClosed this) eqn:Hcl; [exact Ht|].
  destruct (LineReader.lineIterator this) as [[|[value|msg] rest]|];
    simpl; try exact Ht.
  - intros _. unfold LineReader.close. rewrite Hcl. split; reflexivity.
  - intros H. simpl in H. congruence.
  - intros _. split; reflexivity.
Qed.

Lemma readLines_loop_preserves {R : Type} (readLine : M R (option string))
    (P : R -> Prop) (n : nat) :
  (forall r, P r -> P (snd (readLine r))) ->
  forall (r : R) (lines : list string),
    P r -> P (snd (readLines_loop readLine n lines r)).
Proof.
  intros Hstep. induction n as [|n IH]; intros r lines Hr; [exact Hr|].
  simpl. unfold bind. pose proof (Hstep r Hr) as Hr1.
  destruct (readLine r) as [[[l|]|e] r1]; simpl in Hr1; try exact Hr1.
  now apply IH.
Qed.

Lemma serve_tidy (this : LineReader.t) (q : request) :
  tidy this -> tidy (serve this q).
Proof.
  intros Ht. destruct q as [|count|count|]; simpl.
  - now apply readLine_tidy.
  - now apply (skipLines_loop_preserves LineReader.readLine tidy _ readLine_tidy).
  - now apply (readLines_loop_preserves LineReader.readLine tidy _ readLine_tidy).
  - rewrite (restart_tidy this Ht). intros H. simpl in H. discriminate.
Qed.

(** X5: a reader that was opened once and then used only through
    [readLine], [skipLines], [readLines] and [restart], in any order, over
    any stream (faults included), can always be restarted without an error,
    and disposing of it always releases the handle and the iterator and
    leaves it closed. *)
Theorem dispose_after_use_releases (fp : list chunk) (qs : list request) :
  released
    (LineReader.asyncDispose
       (after_requests (snd (LineReader.open (LineReader.constructor fp))) qs))
  /\ fst (LineReader.restart
            (after_requests
               (snd (LineReader.open (LineReader.constructor fp))) qs))
     = Normal tt.
Proof.
  assert (tidy (after_requests
                  (snd (LineReader.open (LineReader.constructor fp))) qs))
    as Ht.
  { assert (tidy (snd (LineReader.open (LineReader.constructor fp)))) as H0
        by (intros H; simpl in H; discriminate).
    revert H0. generalize (snd (LineReader.open (LineReader.constructor fp))).
    induction qs as [|q qs IH]; intros this Ht; [exact Ht|].
    simpl. apply IH. now apply serve_tidy. }
  split; [|now rewrite (restart_tidy _ Ht)].
  unfold LineReader.asyncDispose, LineReader.close.
  destruct (LineReader.isClosed _) eqn:Hcl; [|repeat split].
  destruct (Ht Hcl) as (Hrl & Hit). repeat split; assumption.
Qed.

(** ** readAll *)

Lemma readAll_loop_opened (ls : list string) :
  forall (this : LineReader.t) (lines : list string) (fuel : nat),
    opened ls this ->
    (length ls < fuel)%nat ->
    exists this',
      readAll_loop LineReader.readLine fuel lines this
      = Some (Normal (lines ++ ls), this')
      /\ released this'.
Proof.
  induction ls as [|l ls IH]; intros this lines fuel Hop Hfuel;
    (destruct fuel as [|fuel]; [simpl in Hfuel; lia|]).
  - destruct (readLine_opened_nil this Hop) as (Hr & Hrel & _).
    exists (LineReader.close this). simpl. rewrite Hr, app_nil_r.
    split; [reflexivity|exact Hrel].
  - destruct (readLine_opened_cons l ls this Hop) as (this1 & Hr & Hop1 & _).
    destruct (IH this1 (lines ++ [l]) fuel Hop1) as (this' & Hrun & Hrel);
      [simpl in Hfuel; lia|].
    exists this'. simpl. rewrite Hr, Hrun, <- app_assoc.
    split; [reflexivity|exact Hrel].
Qed.

(** X6: on an open session with the lines [ls] left, [readAll()] ends (with
    any fuel above N) returning exactly those lines in order and leaves the
    session closed and released; after it [readLine()], and [skipLines] and
    [readLines] with a positive count, throw the "not open" error and change
    nothing. *)
Theorem readAll_returns_the_rest (ls : list string) (this : LineReader.t) :
  opened ls this ->
  exists this',
    (forall fuel : nat,
        (length ls < fuel)%nat ->
        LineReader.readAll fuel this = Some (Normal ls, this'))
    /\ LineReader.isEOF this' = true
    /\ LineReader.readLine this' = (Throw NotOpen, this')
    /\ (forall count : Z,
          0 < count ->
          LineReader.skipLines count this' = (Throw NotOpen, this')
          /\ LineReader.readLines count this' = (Throw NotOpen, this')).
Proof.
  intros Hop.
  destruct (readAll_loop_opened ls this [] (S (length ls)) Hop)
    as (this' & Hrun & (Hrl & Hcl & _)); [lia|].
  exists this'. split; [|split; [exact Hcl|]].
  - intros fuel Hfuel.
    destruct (readAll_loop_opened ls this [] fuel Hop Hfuel)
      as (this2 & Hrun2 & _).
    unfold LineReader.readAll, readAll_of.
    destruct fuel as [|fuel]; [lia|].
    assert (forall f1 f2 (r : LineReader.t) lines res1 res2,
               readAll_loop LineReader.readLine f1 lines r = Some res1 ->
               readAll_loop LineReader.readLine f2 lines r = Some res2 ->
               res1 = res2) as Hdet.
    { induction f1 as [|f1 IHf]; intros f2 r lines res1 res2 H1 H2;
        [discriminate|].
      destruct f2 as [|f2]; [discriminate|]. simpl in H1, H2.
      destruct (LineReader.readLine r) as [[[l|]|e] r1]; try congruence.
      eapply IHf; eassumption. }
    rewrite Hrun2. f_equal. exact (Hdet _ _ _ _ _ _ Hrun2 Hrun).
  - pose proof (readLine_no_handle this' Hrl) as Hthrow.
    split; [exact Hthrow|]. intros count Hcount.
    unfold LineReader.skipLines, LineReader.readLines, skipLines_of,
      readLines_of.
    destruct (Z.to_nat count) as [|n] eqn:Hn; [lia|].
    simpl. unfold bind. rewrite Hthrow. split; reflexivity.
Qed.

Lemma readAll_returns_the_rest_witness :
  opened TEST_LINES
    (snd (LineReader.open (LineReader.constructor (map Line TEST_LINES))))
  /\ exists this',
       LineReader.readAll 6
         (snd (LineReader.open (LineReader.constructor (map Line TEST_LINES))))
       = Some (Normal TEST_LINES, this')
       /\ LineReader.skipLines 2 this' = (Throw NotOpen, this')
       /\ LineReader.readLines 2 this' = (Throw NotOpen, this').
Proof.
  split; [apply opened_fresh|].
  destruct (readAll_returns_the_rest TEST_LINES _ (opened_fresh TEST_LINES))
    as (this' & Hrun & _ & _ & Hloops).
  exists this'. split; [apply Hrun; simpl; lia|].
  apply Hloops. lia.
Defined.

(** A read never adds chunks to the iterator, and a read that returns a line
    takes one off. *)
Lemma readLine_remaining (this : LineReader.t) :
  (remaining (snd (LineReader.readLine this)) <= remaining this)%nat
  /\ forall l,
       fst (LineReader.readLine this) = Normal (Some l) ->
       (remaining (snd (LineReader.readLine this)) < remaining this)%nat.
Proof.
  unfold LineReader.readLine, remaining.
  destruct (LineReader.rl this); [|simpl; split; [lia|discriminate]].
  destruct (LineReader.isClosed this) eqn:Hcl;
    [simpl; split; [lia|discriminate]|].
  destruct (LineReader.lineIterator this) as [[|[value|msg] rest]|] eqn:Hit;
    unfold LineReader.close; simpl; rewrite ?Hcl, ?Hit; simpl;
    (split; [lia|try discriminate]).
  intros _ _. lia.
Qed.

(** X7: [readAll()] always ends on a sequential reader, in every state and
    over any stream: fuel above the number of chunks the iterator still
    holds is enough. A session without iterator ends it at the first call. *)
Theorem readAll_terminates (fuel : nat) :
  forall (this : LineReader.t),
    (remaining this < fuel)%nat ->
    exists res, LineReader.readAll fuel this = Some res.
Proof.
  unfold LineReader.readAll, readAll_of. generalize (@nil string).
  induction fuel as [|fuel IH]; intros lines this Hfuel; [lia|].
  simpl. destruct (readLine_remaining this) as (Hle & Hlt).
  destruct (LineReader.readLine this) as [[[l|]|e] this1]; simpl in *;
    try (eexists; reflexivity).
  apply IH. specialize (Hlt l eq_refl). lia.
Qed.

Lemma readAll_terminates_witness :
  exists res,
    LineReader.readAll 4
      (snd (LineReader.open
              (LineReader.constructor [Line "a"; Fault "EIO"; Line "b"])))
    = Some res.
Proof.
  apply (readAll_terminates 4). unfold remaining. simpl. lia.
Defined.

(** ** Read faults inside the loops *)

Lemma readLine_reading_line (l : string) (rest : list chunk)
    (this : LineReader.t) :
  reading (Line l :: rest) this ->
  LineReader.readLine this
  = (Normal (Some l),
     LineReader.mk (LineReader.filePath this) (Some ReadlineInterface)
       (Some rest) false (Some l)).
Proof.
  intros (Hrl & Hcl & Hit). unfold LineReader.readLine.
  now rewrite Hrl, Hcl, Hit.
Qed.

Lemma readLine_reading_fault (msg : string) (rest : list chunk)
    (this : LineReader.t) :
  reading (Fault msg :: rest) this ->
  LineReader.readLine this
  = (Throw (IOFault msg),
     LineReader.mk (LineReader.filePath this) None None true
       (LineReader.currentLine this)).
Proof.
  intros (Hrl & Hcl & Hit). unfold LineReader.readLine.
  now rewrite Hrl, Hcl, Hit.
Qed.

Lemma readLines_loop_fault (msg : string) (rest : list chunk)
    (pre : list string) :
  forall (this : LineReader.t) (lines : list string) (n : nat),
    reading (map Line pre ++ Fault msg :: rest) this ->
    (length pre < n)%nat ->
    readLines_loop LineReader.readLine n lines this
    = (Throw (IOFault msg),
       LineReader.mk (LineReader.filePath this) None None true
         (match last pre with
          | Some l => Some l
          | None => LineReader.currentLine this
          end)).
Proof.
  induction pre as [|l pre IH]; intros this lines n Hrd Hn;
    (destruct n as [|n]; [simpl in Hn; lia|]); simpl; unfold bind.
  - now rewrite (readLine_reading_fault msg rest this Hrd).
  - rewrite (readLine_reading_line l _ this Hrd).
    rewrite IH; [|repeat split|simpl in Hn; lia].
    simpl. rewrite last_cons. now destruct (last pre).
Qed.

Lemma readAll_loop_fault (msg : string) (rest : list chunk)
    (pre : list string) :
  forall (this : LineReader.t) (lines : list string) (fuel : nat),
    reading (map Line pre ++ Fault msg :: rest) this ->
    (length pre < fuel)%nat ->
    readAll_loop LineReader.readLine fuel lines this
    = Some (Throw (IOFault msg),
            LineReader.mk (LineReader.filePath this) None None true
              (match last pre with
               | Some l => Some l
               | None => LineReader.currentLine this
               end)).
Proof.
  induction pre as [|l pre IH]; intros this lines fuel Hrd Hn;
    (destruct fuel as [|fuel]; [simpl in Hn; lia|]); simpl.
  - now rewrite (readLine_reading_fault msg rest this Hrd).
  - rewrite (readLine_reading_line l _ this Hrd).
    rewrite IH; [|repeat split|simpl in Hn; lia].
    simpl. rewrite last_cons. now destruct (last pre).
Qed.

(** X8: when the stream faults after the lines [pre], a [readLines],
    [skipLines] or [readAll] call that reaches the fault throws the stream's
    error instead of returning the lines it had already read, and leaves the
    session closed and released, its last line read being the last of
    [pre]. *)
Theorem fault_discards_partial_result (pre : list string) (msg : string)
    (rest : list chunk) (this : LineReader.t) (count : Z) :
  reading (map Line pre ++ Fault msg :: rest) this ->
  Z.of_nat (length pre) < count ->
  exists this',
    LineReader.readLines count this = (Throw (IOFault msg), this')
    /\ LineReader.skipLines count this = (Throw (IOFault msg), this')
    /\ (forall fuel : nat,
          (length pre < fuel)%nat ->
          LineReader.readAll fuel this = Some (Throw (IOFault msg), this'))
    /\ released this'
    /\ LineReader.currentLine this'
       = match last pre with
         | Some l => Some l
         | None => LineReader.currentLine this
         end.
Proof.
  intros Hrd Hcount. eexists.
  assert (LineReader.readLines count this = (Throw (IOFault msg), _)) as Hread
      by (apply (readLines_loop_fault msg rest pre this []); [exact Hrd|lia]).
  split; [exact Hread|]. split; [|split; [|repeat split]].
  - destruct (loops_agree LineReader.readLine (Z.to_nat count) this 0 []
                eq_refl) as (Hstate & Hcounts).
    change (snd (LineReader.skipLines count this)
            = snd (LineReader.readLines count this)) in Hstate.
    change (counts (fst (LineReader.skipLines count this))
              (fst (LineReader.readLines count this))) in Hcounts.
    rewrite Hread in Hstate, Hcounts. simpl in Hstate, Hcounts.
    destruct (LineReader.skipLines count this) as [[n|e] this1];
      simpl in *; [contradiction|]. now subst.
  - intros fuel Hfuel. now apply (readAll_loop_fault msg rest pre this []).
Qed.

Lemma fault_discards_partial_result_witness :
  reading (map Line ["a"; "b"] ++ [Fault "EIO"; Line "c"])
    (snd (LineReader.open
            (LineReader.constructor
               [Line "a"; Line "b"; Fault "EIO"; Line "c"])))
  /\ Z.of_nat (length ["a"; "b"]) < 3
  /\ exists this',
       LineReader.readLines 3
         (snd (LineReader.open
                 (LineReader.constructor
                    [Line "a"; Line "b"; Fault "EIO"; Line "c"])))
       = (Throw (IOFault "EIO"), this')
       /\ released this'.
Proof.
  split; [repeat split|]. split; [simpl; lia|].
  destruct (fault_discards_partial_result ["a"; "b"] "EIO" [Line "c"]
              (snd (LineReader.open
                      (LineReader.constructor
                         [Line "a"; Line "b"; Fault "EIO"; Line "c"])))
              3 ltac:(repeat split) ltac:(simpl; lia))
    as (this' & Hread & _ & _ & Hrel & _).
  exists this'. split; [exact Hread|exact Hrel].
Defined.

(** ** The batch adapter at its edges *)

(** X9: iterating [readBatches()] yields nothing and leaves the reader as it
    is when the reader is already closed, and also when the batch size is
    not positive (the first read is empty, and nothing is consumed); over a
    reader that was never opened it yields nothing and throws the "not open"
    error. *)
Theorem readBatches_yields_nothing (this : LineReader.t) (b : Z) (fuel : nat) :
  (LineReader.isEOF this = true \/ b <= 0 ->
   readBatches LineReader.isEOF LineReader.readLines b (S fuel) this
   = Some ([], Normal tt, this))
  /\ (LineReader.isEOF this = false -> LineReader.rl this = None -> 1 <= b ->
      readBatches LineReader.isEOF LineReader.readLines b (S fuel) this
      = Some ([], Throw NotOpen, this)).
Proof.
  split.
  - intros H. simpl. destruct (LineReader.isEOF this) eqn:Heof; [reflexivity|].
    destruct H as [H|H]; [discriminate|]. unfold LineReader.readLines.
    now rewrite (proj2 (loops_nonpositive LineReader.readLine b this H)).
  - intros Heof Hrl Hb. simpl. rewrite Heof.
    unfold LineReader.readLines, readLines_of.
    destruct (Z.to_nat b) as [|n] eqn:Hn; [lia|].
    simpl. unfold bind. now rewrite (readLine_no_handle this Hrl).
Qed.

Lemma readBatches_yields_nothing_witness :
  readBatches LineReader.isEOF LineReader.readLines 0 1
    (snd (LineReader.open (LineReader.constructor (map Line TEST_LINES))))
  = Some ([], Normal tt,
          snd (LineReader.open (LineReader.constructor (map Line TEST_LINES))))
  /\ readBatches LineReader.isEOF LineReader.readLines 2 1
       (LineReader.constructor (map Line TEST_LINES))
     = Some ([], Throw NotOpen, LineReader.constructor (map Line TEST_LINES)).
Proof.
  split.
  - apply (proj1 (readBatches_yields_nothing _ 0 0)). right. lia.
  - apply (proj2 (readBatches_yields_nothing _ 2 0));
      [reflexivity|reflexivity|lia].
Defined.

Lemma readLines_loop_remaining (n : nat) :
  forall (this : LineReader.t) (lines : list string),
    (remaining (snd (readLines_loop LineReader.readLine n lines this))
     <= remaining this)%nat
    /\ forall batch,
         fst (readLines_loop LineReader.readLine n lines this) = Normal batch ->
         (length lines <= length batch)%nat
         /\ ((length lines < length batch)%nat ->
             (remaining (snd (readLines_loop LineReader.readLine n lines this))
              < remaining this)%nat).
Proof.
  induction n as [|n IH]; intros this lines.
  - simpl. split; [lia|]. intros batch [= <-]. lia.
  - simpl. unfold bind. destruct (readLine_remaining this) as (Hle & Hlt).
    destruct (LineReader.readLine this) as [[[l|]|e] this1]; simpl in *.
    + specialize (Hlt l eq_refl).
      destruct (IH this1 (lines ++ [l])) as (Hle1 & Hbatch).
      split; [lia|]. intros batch Hres.
      destruct (Hbatch batch Hres) as (Hlen & _).
      rewrite length_app in Hlen. simpl in Hlen. lia.
    + split; [exact Hle|]. intros batch [= <-]. lia.
    + split; [exact Hle|]. discriminate.
Qed.

(** X10: iterating [readBatches()] over a sequential reader always ends, in
    every state, for every batch size and over any stream: each batch it
    yields takes at least one chunk off the iterator, so fuel above the
    number of chunks left is enough. *)
Theorem readBatches_terminates (b : Z) (fuel : nat) :
  forall this : LineReader.t,
    (remaining this < fuel)%nat ->
    exists res,
      readBatches LineReader.isEOF LineReader.readLines b fuel this = Some res.
Proof.
  induction fuel as [|fuel IH]; intros this Hfuel; [lia|].
  simpl. destruct (LineReader.isEOF this); [eexists; reflexivity|].
  destruct (readLines_loop_remaining (Z.to_nat b) this []) as (_ & Hbatch).
  change (readLines_loop LineReader.readLine (Z.to_nat b) [] this)
    with (LineReader.readLines b this) in Hbatch.
  destruct (LineReader.readLines b this) as [[batch|e] this1];
    [|eexists; reflexivity].
  destruct (Hbatch batch eq_refl) as (_ & Hlt). simpl in Hlt.
  destruct (Nat.eqb_spec (length batch) 0) as [Hempty|Hfull];
    [eexists; reflexivity|].
  destruct (IH this1) as (res & Hres); [lia|].
  rewrite Hres. destruct res as [[batches c] this2]. eexists. reflexivity.
Qed.

Lemma readBatches_terminates_witness :
  exists res,
    readBatches LineReader.isEOF LineReader.readLines 2 5
      (snd (LineReader.open
              (LineReader.constructor
                 [Line "a"; Line "b"; Line "c"; Fault "EIO"])))
    = Some res.
Proof.
  apply (readBatches_terminates 2 5). unfold remaining. simpl. lia.
Defined.

(** * Further properties of the indexed reader *)

(** X11: what the cache holds is always right. On an indexed reader over a
    fault-free file with N lines, after any calls of [readLine] and
    [readLineAt], every cached entry has a line number between 1 and N and
    holds that very line of the file, and the counter lies between 0 and N. *)
Theorem cache_holds_lines_of_the_file (ls : list string)
    (options_cacheSize : option Z) (cs : list call) :
  (forall (k : Z) (v : string),
      EnhancedLineReader.cache
        (after_calls
           (snd (EnhancedLineReader.open
                   (EnhancedLineReader.constructor (map Line ls)
                      options_cacheSize))) cs) !! k = Some v ->
      1 <= k <= Z.of_nat (length ls) /\ ls !! Z.to_nat (k - 1) = Some v)
  /\ 0 <= EnhancedLineReader.getCurrentLineNumber
            (after_calls
               (snd (EnhancedLineReader.open
                       (EnhancedLineReader.constructor (map Line ls)
                          options_cacheSize))) cs)
     <= Z.of_nat (length ls).
Proof.
  destruct (after_calls_consistent ls cs _
              (consistent_fresh ls options_cacheSize))
    as (_ & Hcache & Hp & _).
  split; [|exact Hp]. intros k v Hk. destruct (Hcache k v Hk) as (Hk1 & Hl).
  pose proof (lookup_lt_Some _ _ _ Hl). repeat split; [lia|lia|exact Hl].
Qed.

(** X12: [manageCache()] leaves the reader as it is while the cache holds no
    more than [cacheSize] entries. When it holds more (and [cacheSize] is
    not negative), the sorted keys split into the [floor(cacheSize / 2)]
    lowest ones, which leave the cache, and the others, all higher, which
    keep their lines. *)
Theorem manageCache_evicts_lowest_keys (this : EnhancedLineReader.t) :
  (Z.of_nat (size (EnhancedLineReader.cache this))
   <= EnhancedLineReader.cacheSize this ->
   EnhancedLineReader.manageCache this = this)
  /\ (0 <= EnhancedLineReader.cacheSize this
      < Z.of_nat (size (EnhancedLineReader.cache this)) ->
      exists removed kept : list Z,
        EnhancedLineReader.sorted_keys (EnhancedLineReader.cache this)
        = removed ++ kept
        /\ Z.of_nat (length removed) = EnhancedLineReader.cacheSize this / 2
        /\ (forall k k', k ∈ removed -> k' ∈ kept -> k < k')
        /\ (forall k, k ∈ removed ->
              EnhancedLineReader.cache (EnhancedLineReader.manageCache this) !! k
              = None)
        /\ (forall k, k ∉ removed ->
              EnhancedLineReader.cache (EnhancedLineReader.manageCache this) !! k
              = EnhancedLineReader.cache this !! k)).
Proof.
  split.
  - intros Hfit. unfold EnhancedLineReader.manageCache.
    destruct (Z.gtb_spec (Z.of_nat (size (EnhancedLineReader.cache this)))
                (EnhancedLineReader.cacheSize this)); [lia|reflexivity].
  - intros (Hcs & Hover).
    destruct (manageCache_evicts this Hcs Hover)
      as (removed & kept & H1 & H2 & H3 & H4 & H5 & _).
    exists removed, kept. repeat split; assumption.
Qed.

Lemma manageCache_evicts_lowest_keys_witness :
  exists removed kept : list Z,
    EnhancedLineReader.sorted_keys
      (<[3 := "Charlie"]> (<[2 := "Bravo"]> (<[1 := "Alpha"]> ∅)))
    = removed ++ kept
    /\ Z.of_nat (length removed) = 2 / 2
    /\ forall k, k ∈ removed ->
         EnhancedLineReader.cache
           (EnhancedLineReader.manageCache
              (EnhancedLineReader.mk (LineReader.constructor [])
                 (<[3 := "Charlie"]> (<[2 := "Bravo"]> (<[1 := "Alpha"]> ∅)))
                 2 3)) !! k
         = None.
Proof.
  destruct (proj2 (manageCache_evicts_lowest_keys
                     (EnhancedLineReader.mk (LineReader.constructor [])
                        (<[3 := "Charlie"]>
                           (<[2 := "Bravo"]> (<[1 := "Alpha"]> ∅)))
                        2 3))
              ltac:(split; [simpl; lia|vm_compute; reflexivity]))
    as (removed & kept & H1 & H2 & _ & H4 & _).
  exists removed, kept. split; [exact H1|]. split; [exact H2|exact H4].
Defined.

(** X13: the capacity bound. For every reader whose capacity, as the
    constructor sets it, is at least two (1000 when the option is missing or
    zero), over any stream and after any calls of [readLine] and
    [readLineAt], the cache holds at most [cacheSize] entries. *)
Theorem cache_never_exceeds_capacity (fp : list chunk)
    (options_cacheSize : option Z) (cs : list call) :
  2 <= EnhancedLineReader.cacheSize
         (EnhancedLineReader.constructor fp options_cacheSize) ->
  EnhancedLineReader.cacheSize
    (after_calls
       (snd (EnhancedLineReader.open
               (EnhancedLineReader.constructor fp options_cacheSize))) cs)
  = EnhancedLineReader.cacheSize
      (EnhancedLineReader.constructor fp options_cacheSize)
  /\ Z.of_nat
       (size (EnhancedLineReader.cache
                (after_calls
                   (snd (EnhancedLineReader.open
                           (EnhancedLineReader.constructor fp
                              options_cacheSize))) cs)))
     <= EnhancedLineReader.cacheSize
          (EnhancedLineReader.constructor fp options_cacheSize).
Proof.
  intros Hcap.
  set (capacity := EnhancedLineReader.cacheSize
                     (EnhancedLineReader.constructor fp options_cacheSize)) in *.
  assert (bounded capacity
            (snd (EnhancedLineReader.open
                    (EnhancedLineReader.constructor fp options_cacheSize))))
    as Hinit.
  { split; [reflexivity|]. split; [exact Hcap|].
    simpl. rewrite map_size_empty. lia. }
  revert Hinit. generalize (snd (EnhancedLineReader.open
                                   (EnhancedLineReader.constructor fp
                                      options_cacheSize))).
  induction cs as [|c cs IH]; intros this Hb.
  - destruct Hb as (H1 & _ & H3). split; assumption.
  - simpl. apply IH. destruct c as [|lineNumber]; simpl.
    + now apply readLine_bounded.
    + now apply readLineAt_bounded.
Qed.

Lemma cache_never_exceeds_capacity_witness :
  2 <= EnhancedLineReader.cacheSize
         (EnhancedLineReader.constructor (map Line TEST_LINES) (Some 0))
  /\ Z.of_nat
       (size (EnhancedLineReader.cache
                (after_calls
                   (snd (EnhancedLineReader.open
                           (EnhancedLineReader.constructor
                              (map Line TEST_LINES) (Some 0))))
                   [CallReadLineAt 5; CallReadLineAt 1])))
     <= 1000.
Proof.
  split; [simpl; lia|].
  apply (cache_never_exceeds_capacity (map Line TEST_LINES) (Some 0)
           [CallReadLineAt 5; CallReadLineAt 1]).
  simpl. lia.
Defined.

(** ** Forward reads and the cache *)

(** An eviction never removes the highest key, whatever the capacity. *)
Lemma newest_key_stays (this : EnhancedLineReader.t) (k : Z) (l : string) :
  (forall k', is_Some (EnhancedLineReader.cache this !! k') -> k' <= k) ->
  EnhancedLineReader.cache
    (EnhancedLineReader.manageCache (EnhancedLineReader.cache_set k l this)) !! k
  = Some l.
Proof.
  intros Hmax. unfold EnhancedLineReader.manageCache. simpl.
  set (c := <[k:=l]> (EnhancedLineReader.cache this)).
  destruct (Z.gtb_spec (Z.of_nat (size c)) (EnhancedLineReader.cacheSize this))
    as [Hover|_]; simpl; [|apply lookup_insert_eq].
  rewrite foldl_delete_lookup_other; [apply lookup_insert_eq|].
  pose proof (sorted_keys_length c) as Hlen.
  assert (exists m, (m < length (EnhancedLineReader.sorted_keys c))%nat
                    /\ EnhancedLineReader.slice0
                         (EnhancedLineReader.cacheSize this / 2)
                         (EnhancedLineReader.sorted_keys c)
                       = take m (EnhancedLineReader.sorted_keys c))
    as (m & Hm & ->).
  { unfold EnhancedLineReader.slice0.
    destruct (Z.ltb_spec (EnhancedLineReader.cacheSize this / 2) 0) as [Hneg|Hpos];
      eexists; (split; [|reflexivity]).
    - assert (size c <> 0)%nat
        by (apply (map_size_ne_0_lookup_2 c k); exists l;
            apply lookup_insert_eq).
      lia.
    - destruct (Z_lt_le_dec (EnhancedLineReader.cacheSize this) 0) as [Hcs|Hcs].
      + assert (EnhancedLineReader.cacheSize this / 2 < 0)
          by (apply Z.div_lt_upper_bound; lia).
        lia.
      + assert (EnhancedLineReader.cacheSize this / 2
                <= EnhancedLineReader.cacheSize this)
          by (apply Z.div_le_upper_bound; lia).
        lia. }
  intros Hin.
  pose proof (sorted_keys_NoDup c) as Hnd.
  pose proof (sorted_keys_sorted c) as Hsorted.
  rewrite <- (take_drop m (EnhancedLineReader.sorted_keys c)) in Hnd, Hsorted.
  apply NoDup_app in Hnd as (_ & Hdisj & _).
  apply StronglySorted_app in Hsorted as (Hle & _ & _).
  destruct (drop m (EnhancedLineReader.sorted_keys c)) as [|k' kept] eqn:Hd.
  { apply (f_equal length) in Hd. rewrite length_drop in Hd. simpl in Hd. lia. }
  assert (k' ∈ k' :: kept) as Hk' by left.
  pose proof (Hle k k' Hin Hk') as Hkk'.
  assert (k <> k') as Hne by (intros ->; now apply (Hdisj k')).
  assert (k' ∈ EnhancedLineReader.sorted_keys c) as Hkey.
  { rewrite <- (take_drop m (EnhancedLineReader.sorted_keys c)), Hd.
    apply elem_of_app. now right. }
  apply sorted_keys_elem_of in Hkey. subst c.
  rewrite lookup_insert_ne in Hkey by exact Hne.
  specialize (Hmax k' Hkey). lia.
Qed.

(** A [readLine] that returns a line stores it under the new pointer value
    and trims the cache; any other [readLine] leaves cache and pointer. *)
Lemma readLine_indexed_shape (this : EnhancedLineReader.t) :
  match EnhancedLineReader.readLine this with
  | (Normal (Some l), this') =>
      exists pre,
        EnhancedLineReader.cache pre = EnhancedLineReader.cache this
        /\ EnhancedLineReader.linePointer pre
           = EnhancedLineReader.linePointer this + 1
        /\ this' = EnhancedLineReader.manageCache
                     (EnhancedLineReader.cache_set
                        (EnhancedLineReader.linePointer this + 1) l pre)
  | (_, this') =>
      EnhancedLineReader.cache this' = EnhancedLineReader.cache this
      /\ EnhancedLineReader.linePointer this'
         = EnhancedLineReader.linePointer this
  end.
Proof.
  unfold EnhancedLineReader.readLine, bind, EnhancedLineReader.inherited.
  destruct (LineReader.readLine (EnhancedLineReader.super this))
    as [[[l|]|e] base]; simpl; try (split; reflexivity).
  eexists (EnhancedLineReader.mk base _ _ _). repeat split.
Qed.

Lemma cache_set_keys_below (this : EnhancedLineReader.t) (k : Z) (l : string) :
  (forall k', is_Some (EnhancedLineReader.cache this !! k') -> k' <= k) ->
  EnhancedLineReader.linePointer this = k ->
  keys_below
    (EnhancedLineReader.manageCache (EnhancedLineReader.cache_set k l this)).
Proof.
  intros Hmax Hp key [v Hv].
  destruct (manageCache_shrinks (EnhancedLineReader.cache_set k l this))
    as (_ & _ & Hptr & Hsub).
  rewrite Hptr. simpl. rewrite Hp. apply Hsub in Hv. simpl in Hv.
  apply lookup_insert_Some in Hv as [[<- _]|[_ Hv]]; [lia|].
  apply Hmax. now exists v.
Qed.

Lemma readLine_keys_below (this : EnhancedLineReader.t) :
  keys_below this -> keys_below (snd (EnhancedLineReader.readLine this)).
Proof.
  intros Hkb. pose proof (readLine_indexed_shape this) as Hshape.
  destruct (EnhancedLineReader.readLine this) as [[[l|]|e] this']; simpl.
  - destruct Hshape as (pre & Hc & Hp & ->).
    apply cache_set_keys_below; [|exact Hp].
    intros k' Hk'. rewrite Hc in Hk'. specialize (Hkb k' Hk'). lia.
  - destruct Hshape as (Hc & Hp). intros key. rewrite Hc, Hp. apply Hkb.
  - destruct Hshape as (Hc & Hp). intros key. rewrite Hc, Hp. apply Hkb.
Qed.

(** X14: a forward [readLineAt] caches what it returns, whatever the
    capacity. On a consistent session whose cached line numbers are all at
    or behind the counter, [readLineAt(n)] for a line ahead of the counter
    returns line [n], moves the counter to [n] and leaves line [n] in the
    cache (an eviction never takes the highest key), so that repeating the
    call returns the line again and changes nothing. *)
Theorem forward_readLineAt_is_cached (ls : list string)
    (this : EnhancedLineReader.t) (n : Z) :
  consistent ls this ->
  keys_below this ->
  EnhancedLineReader.linePointer this < n <= Z.of_nat (length ls) ->
  exists (l : string) (this' : EnhancedLineReader.t),
    EnhancedLineReader.readLineAt n this = (Normal (Some l), this')
    /\ ls !! Z.to_nat (n - 1) = Some l
    /\ EnhancedLineReader.cache this' !! n = Some l
    /\ EnhancedLineReader.getCurrentLineNumber this' = n
    /\ consistent ls this'
    /\ keys_below this'
    /\ EnhancedLineReader.readLineAt n this' = (Normal (Some l), this').
Proof.
  intros Hcons Hkb Hn. pose proof Hcons as (_ & _ & Hp & Hst).
  assert (opened (drop (Z.to_nat (EnhancedLineReader.linePointer this)) ls)
            (EnhancedLineReader.super this)) as Hop
      by (destruct Hst as [H|(_ & H)]; [exact H|lia]).
  destruct (readLineAt_consistent ls n this Hcons) as (Hcons' & Hv).
  destruct (Hv ltac:(lia)) as (l & Hl & _). clear Hv.
  destruct (EnhancedLineReader.readLineAt n this) as [c this'] eqn:E.
  simpl in Hcons'. unfold EnhancedLineReader.readLineAt in E.
  destruct (Z.ltb_spec n 1) as [?|_]; [lia|].
  destruct (EnhancedLineReader.cache this !! n) as [v|] eqn:Hmiss.
  { specialize (Hkb n ltac:(now exists v)). lia. }
  unfold bind at 1 in E. cbv beta in E.
  destruct (Z.leb_spec n (EnhancedLineReader.linePointer this)) as [?|_]; [lia|].
  unfold bind at 1 in E.
  unfold EnhancedLineReader.skipLines, skipLines_of in E.
  set (n0 := Z.to_nat (n - EnhancedLineReader.linePointer this - 1)) in E.
  destruct (skipLines_loop_indexed ls n0 this 0 Hcons Hop)
    as (result & this1 & Hskip & Hcons1 & Hle & _).
  pose proof (skipLines_loop_preserves EnhancedLineReader.readLine keys_below
                n0 readLine_keys_below this 0 Hkb) as Hkb1.
  rewrite Hskip in E, Hkb1. simpl in Hkb1.
  destruct Hle as (Hp1 & Hop1); [lia|].
  assert (EnhancedLineReader.linePointer this1 = n - 1) as Hp1' by lia.
  rewrite <- Hp1' in Hl.
  destruct (readLine_indexed_some ls this1 l Hcons1 Hop1 Hl)
    as (this2 & Hread & _ & Hp2 & _).
  pose proof (readLine_keys_below this1 Hkb1) as Hkb2.
  unfold bind in E. rewrite Hread in E, Hkb2. simpl in E, Hkb2.
  injection E as <- <-.
  assert (EnhancedLineReader.linePointer this2 = n) as Hp2' by lia.
  assert (forall k', is_Some (EnhancedLineReader.cache this2 !! k') -> k' <= n)
    as Hmax by (intros k' Hk'; specialize (Hkb2 k' Hk'); lia).
  pose proof (newest_key_stays this2 n l Hmax) as Hhit.
  exists l, (EnhancedLineReader.manageCache
               (EnhancedLineReader.cache_set n l this2)).
  split; [reflexivity|]. split; [rewrite <- Hp1'; exact Hl|].
  split; [exact Hhit|]. split.
  { destruct (manageCache_shrinks (EnhancedLineReader.cache_set n l this2))
      as (_ & _ & Hptr & _).
    unfold EnhancedLineReader.getCurrentLineNumber. now rewrite Hptr. }
  split; [exact Hcons'|].
  split; [now apply cache_set_keys_below|].
  unfold EnhancedLineReader.readLineAt.
  destruct (Z.ltb_spec n 1) as [?|_]; [lia|]. now rewrite Hhit.
Qed.

Lemma forward_readLineAt_is_cached_witness :
  exists (l : string) (this' : EnhancedLineReader.t),
    EnhancedLineReader.readLineAt 3
      (snd (EnhancedLineReader.open
              (EnhancedLineReader.constructor (map Line TEST_LINES) (Some 1))))
    = (Normal (Some l), this')
    /\ EnhancedLineReader.cache this' !! 3 = Some l.
Proof.
  destruct (forward_readLineAt_is_cached TEST_LINES
              (snd (EnhancedLineReader.open
                      (EnhancedLineReader.constructor (map Line TEST_LINES)
                         (Some 1))))
              3 (consistent_fresh TEST_LINES (Some 1))
              ltac:(intros key [v Hv]; simpl in Hv; rewrite lookup_empty in Hv;
                    discriminate)
              ltac:(simpl; lia))
    as (l & this' & Hread & _ & Hhit & _).
  exists l, this'. split; [exact Hread|exact Hhit].
Defined.

Lemma readLine_calls_released (k : nat) (this : EnhancedLineReader.t) :
  released (EnhancedLineReader.super this) ->
  after_calls this (replicate k CallReadLine) = this.
Proof.
  intros Hrel. induction k as [|k IH]; [reflexivity|].
  simpl. now rewrite (readLine_indexed_released this Hrel).
Qed.

Lemma readLine_calls_pointer (ls : list string) (k : nat) :
  forall this : EnhancedLineReader.t,
    consistent ls this ->
    opened (drop (Z.to_nat (EnhancedLineReader.linePointer this)) ls)
      (EnhancedLineReader.super this) ->
    EnhancedLineReader.linePointer (after_calls this (replicate k CallReadLine))
    = Z.min (EnhancedLineReader.linePointer this + Z.of_nat k)
        (Z.of_nat (length ls))
    /\ (EnhancedLineReader.isEOF (after_calls this (replicate k CallReadLine))
        = true
        <-> Z.of_nat (length ls)
            < EnhancedLineReader.linePointer this + Z.of_nat k).
Proof.
  induction k as [|k IH]; intros this Hcons Hop.
  - pose proof Hcons as (_ & _ & Hp & _). simpl. split; [lia|].
    destruct Hop as (_ & Hcl & _). unfold EnhancedLineReader.isEOF,
      LineReader.isEOF. rewrite Hcl. split; [discriminate|lia].
  - simpl.
    destruct (ls !! Z.to_nat (EnhancedLineReader.linePointer this)) as [l|] eqn:Hl.
    + destruct (readLine_indexed_some ls this l Hcons Hop Hl)
        as (this1 & -> & Hcons1 & Hp1 & Hop1).
      simpl. destruct (IH this1 Hcons1 Hop1) as (Hptr & Heof).
      rewrite Hptr, Heof, Hp1. split; [lia|]. split; lia.
    + destruct (readLine_indexed_end ls this Hcons Hop Hl)
        as (this1 & -> & Hcons1 & Hrel1).
      simpl. rewrite (readLine_calls_released k this1 Hrel1).
      apply lookup_ge_None in Hl.
      pose proof Hcons as (_ & _ & Hp & _).
      pose proof Hcons1 as (_ & _ & _ & [(Hrl & _)|(_ & HpN)]);
        [destruct Hrel1 as (Hrl' & _); congruence|].
      split; [lia|].
      destruct Hrel1 as (_ & Hcl & _). unfold EnhancedLineReader.isEOF,
        LineReader.isEOF. rewrite Hcl. split; [lia|reflexivity].
Qed.

(** X15: the counter counts the lines returned. After [k] calls of
    [readLine()] on a freshly opened indexed reader over a fault-free file
    with N lines, [getCurrentLineNumber()] is [min(k, N)], and [isEOF()] is
    true exactly when [k > N]: the read that meets the end closes the
    session, and the reads after it change nothing. *)
Theorem getCurrentLineNumber_counts_lines (ls : list string)
    (options_cacheSize : option Z) (k : nat) :
  EnhancedLineReader.getCurrentLineNumber
    (after_calls
       (snd (EnhancedLineReader.open
               (EnhancedLineReader.constructor (map Line ls)
                  options_cacheSize)))
       (replicate k CallReadLine))
  = Z.min (Z.of_nat k) (Z.of_nat (length ls))
  /\ (EnhancedLineReader.isEOF
        (after_calls
           (snd (EnhancedLineReader.open
                   (EnhancedLineReader.constructor (map Line ls)
                      options_cacheSize)))
           (replicate k CallReadLine))
      = true
      <-> (length ls < k)%nat).
Proof.
  destruct (readLine_calls_pointer ls k _
              (consistent_fresh ls options_cacheSize))
    as (Hptr & Heof); [repeat split|].
  unfold EnhancedLineReader.getCurrentLineNumber. rewrite Hptr, Heof.
  simpl. split; [reflexivity|lia].
Qed.

(** ** Line numbers past the end of the file *)

(** X16: [readLineAt(n)] for [n] past the last line of a fault-free file.
    On a session closed by the end of the stream it throws the "not open"
    error and changes nothing (no restart is made). On an open session it
    returns [null] when [n] is N+1, and for a larger [n] the skip meets the
    end and the read that follows throws the "not open" error; either way
    the session is left closed with the counter at N. *)
Theorem readLineAt_past_the_end (ls : list string)
    (this : EnhancedLineReader.t) (n : Z) :
  consistent ls this ->
  Z.of_nat (length ls) < n ->
  (released (EnhancedLineReader.super this) ->
   EnhancedLineReader.readLineAt n this = (Throw NotOpen, this))
  /\ (opened (drop (Z.to_nat (EnhancedLineReader.linePointer this)) ls)
        (EnhancedLineReader.super this) ->
      exists this',
        EnhancedLineReader.readLineAt n this
        = (if n =? Z.of_nat (length ls) + 1 then Normal None
           else Throw NotOpen, this')
        /\ EnhancedLineReader.isEOF this' = true
        /\ EnhancedLineReader.getCurrentLineNumber this' = Z.of_nat (length ls)
        /\ consistent ls this').
Proof.
  intros Hcons Hn. pose proof Hcons as (_ & Hcache & Hp & _).
  assert (EnhancedLineReader.cache this !! n = None) as Hmiss.
  { destruct (EnhancedLineReader.cache this !! n) as [v|] eqn:E; [|reflexivity].
    destruct (Hcache n v E) as (_ & Hl). apply lookup_lt_Some in Hl. lia. }
  assert (forall r, EnhancedLineReader.readLineAt n this = r ->
            r = (await _ := (fun this =>
                               EnhancedLineReader.skipLines
                                 (n - EnhancedLineReader.linePointer this - 1)
                                 this) in
                 await line := EnhancedLineReader.readLine in
                 match line with
                 | Some l => fun this =>
                     (Normal line,
                      EnhancedLineReader.manageCache
                        (EnhancedLineReader.cache_set n l this))
                 | None => ret line
                 end) this) as Hbody.
  { intros r <-. unfold EnhancedLineReader.readLineAt.
    destruct (Z.ltb_spec n 1) as [?|_]; [lia|]. rewrite Hmiss.
    unfold bind at 1. cbv beta.
    destruct (Z.leb_spec n (EnhancedLineReader.linePointer this)) as [?|_];
      [lia|reflexivity]. }
  split.
  - intros Hrel. rewrite (Hbody _ eq_refl).
    unfold bind, EnhancedLineReader.skipLines, skipLines_of.
    pose proof (skipLines_loop_released
                  (Z.to_nat (n - EnhancedLineReader.linePointer this - 1)) 0
                  this Hrel) as Hsame.
    destruct (skipLines_loop EnhancedLineReader.readLine _ 0 this)
      as [[result|e] this1] eqn:Hskip; simpl in Hsame; subst this1.
    + now rewrite (readLine_indexed_released this Hrel).
    + destruct (Z.to_nat (n - EnhancedLineReader.linePointer this - 1));
        [discriminate|].
      simpl in Hskip. unfold bind in Hskip.
      rewrite (readLine_indexed_released this Hrel) in Hskip.
      injection Hskip as <-. reflexivity.
  - intros Hop.
    destruct (EnhancedLineReader.readLineAt n this) as [c this'] eqn:E.
    pose proof (Hbody _ eq_refl) as Hr. clear Hbody E.
    unfold bind, EnhancedLineReader.skipLines, skipLines_of in Hr.
    set (n0 := Z.to_nat (n - EnhancedLineReader.linePointer this - 1)) in Hr.
    destruct (skipLines_loop_indexed ls n0 this 0 Hcons Hop)
      as (result & this1 & Hskip & Hcons1 & Hle & Hgt).
    rewrite Hskip in Hr.
    assert (forall that : EnhancedLineReader.t,
               consistent ls that ->
               released (EnhancedLineReader.super that) ->
               EnhancedLineReader.isEOF that = true
               /\ EnhancedLineReader.getCurrentLineNumber that
                  = Z.of_nat (length ls)
               /\ consistent ls that) as Hclosed.
    { intros that Hc Hrel. pose proof Hrel as (Hrl & Hcl & _).
      split; [exact Hcl|]. split; [|exact Hc].
      destruct Hc as (_ & _ & _ & [(Hrl' & _)|(_ & HpN)]);
        [congruence|exact HpN]. }
    destruct (Z.eqb_spec n (Z.of_nat (length ls) + 1)) as [Hnext|Hfar].
    + destruct Hle as (Hp1 & Hop1); [lia|].
      assert (ls !! Z.to_nat (EnhancedLineReader.linePointer this1) = None)
        as Hl by (apply lookup_ge_None; lia).
      destruct (readLine_indexed_end ls this1 Hcons1 Hop1 Hl)
        as (this2 & Hread & Hcons2 & Hrel2).
      rewrite Hread in Hr. injection Hr as -> ->.
      exists this2. split; [reflexivity|]. now apply Hclosed.
    + assert (released (EnhancedLineReader.super this1)) as Hrel1
          by (apply Hgt; lia).
      rewrite (readLine_indexed_released this1 Hrel1) in Hr.
      injection Hr as -> ->.
      exists this1. split; [reflexivity|]. now apply Hclosed.
Qed.

Lemma readLineAt_past_the_end_witness :
  fst (EnhancedLineReader.readLineAt 6
         (snd (EnhancedLineReader.open
                 (EnhancedLineReader.constructor (map Line TEST_LINES) None))))
  = Normal None
  /\ fst (EnhancedLineReader.readLineAt 7
            (snd (EnhancedLineReader.open
                    (EnhancedLineReader.constructor (map Line TEST_LINES)
                       None))))
     = Throw NotOpen.
Proof.
  split.
  - destruct (proj2 (readLineAt_past_the_end TEST_LINES _ 6
                       (consistent_fresh TEST_LINES None) ltac:(simpl; lia))
                ltac:(repeat split)) as (this' & -> & _).
    reflexivity.
  - destruct (proj2 (readLineAt_past_the_end TEST_LINES _ 7
                       (consistent_fresh TEST_LINES None) ltac:(simpl; lia))
                ltac:(repeat split)) as (this' & -> & _).
    reflexivity.
Defined.

(** ** What a cache miss does *)

Lemma restart_step_fields (this : EnhancedLineReader.t) :
  EnhancedLineReader.cache
    (snd ((await _ := EnhancedLineReader.restart in
           fun this => (Normal tt, EnhancedLineReader.set_linePointer 0 this))
            this))
  = EnhancedLineReader.cache this
  /\ EnhancedLineReader.cacheSize
       (snd ((await _ := EnhancedLineReader.restart in
              fun this => (Normal tt, EnhancedLineReader.set_linePointer 0 this))
               this))
     = EnhancedLineReader.cacheSize this.
Proof.
  unfold bind, EnhancedLineReader.restart, EnhancedLineReader.inherited.
  destruct (LineReader.restart (EnhancedLineReader.super this))
    as [[[]|e] base]; split; reflexivity.
Qed.

(** The steps of [readLineAt(n)] on a consistent session that has not cached
    line [n]: the session [start] it seeks from (after the restart, if the
    line is at or behind the pointer), the skip, and the read. *)
Lemma readLineAt_trace (ls : list string) (n : Z)
    (this : EnhancedLineReader.t) :
  consistent ls this ->
  1 <= n ->
  EnhancedLineReader.cache this !! n = None ->
  exists start : EnhancedLineReader.t,
    consistent ls start
    /\ EnhancedLineReader.cache start = EnhancedLineReader.cache this
    /\ EnhancedLineReader.cacheSize start = EnhancedLineReader.cacheSize this
    /\ (start = this \/ EnhancedLineReader.linePointer start = 0)
    /\ (Z.of_nat (length ls) < n ->
        snd (EnhancedLineReader.readLineAt n this)
        = snd (EnhancedLineReader.readLine
                 (snd (skipLines_loop EnhancedLineReader.readLine
                         (Z.to_nat
                            (n - EnhancedLineReader.linePointer start - 1))
                         0 start))))
    /\ (n <= Z.of_nat (length ls) ->
        exists (l : string) (this2 : EnhancedLineReader.t),
          EnhancedLineReader.readLine
            (snd (skipLines_loop EnhancedLineReader.readLine
                    (Z.to_nat (n - EnhancedLineReader.linePointer start - 1))
                    0 start))
          = (Normal (Some l), this2)
          /\ ls !! Z.to_nat (n - 1) = Some l
          /\ EnhancedLineReader.linePointer this2 = n
          /\ opened (drop (Z.to_nat n) ls) (EnhancedLineReader.super this2)
          /\ EnhancedLineReader.readLineAt n this
             = (Normal (Some l),
                EnhancedLineReader.manageCache
                  (EnhancedLineReader.cache_set n l this2))).
Proof.
  intros Hcons Hn Hmiss.
  assert (exists start,
             consistent ls start
             /\ EnhancedLineReader.cache start = EnhancedLineReader.cache this
             /\ EnhancedLineReader.cacheSize start
                = EnhancedLineReader.cacheSize this
             /\ (start = this \/ EnhancedLineReader.linePointer start = 0)
             /\ EnhancedLineReader.linePointer start < n
             /\ EnhancedLineReader.readLineAt n this
                = (await _ := (fun this =>
                                 EnhancedLineReader.skipLines
                                   (n - EnhancedLineReader.linePointer this - 1)
                                   this) in
                   await line := EnhancedLineReader.readLine in
                   match line with
                   | Some l => fun this =>
                       (Normal line,
                        EnhancedLineReader.manageCache
                          (EnhancedLineReader.cache_set n l this))
                   | None => ret line
                   end) start)
    as (start & Hcons1 & Hc & Hcs & Hwhich & Hp1 & Hbody).
  { unfold EnhancedLineReader.readLineAt.
    destruct (Z.ltb_spec n 1) as [?|_]; [lia|]. rewrite Hmiss.
    unfold bind at 1. cbv beta.
    destruct (Z.leb_spec n (EnhancedLineReader.linePointer this)) as [Hback|Hfwd].
    - destruct (restart_step_fields this) as (Hc & Hcs).
      destruct (restart_consistent ls this Hcons)
        as (start & Hrestart & Hcons1 & Hp1 & _).
      rewrite Hrestart in Hc, Hcs |- *. simpl in Hc, Hcs.
      exists start. split; [exact Hcons1|]. split; [exact Hc|].
      split; [exact Hcs|]. split; [now right|]. split; [lia|reflexivity].
    - exists this. split; [exact Hcons|]. split; [reflexivity|].
      split; [reflexivity|]. split; [now left|]. split; [lia|reflexivity]. }
  exists start. split; [exact Hcons1|]. split; [exact Hc|].
  split; [exact Hcs|]. split; [exact Hwhich|].
  rewrite Hbody. clear Hbody.
  unfold bind, EnhancedLineReader.skipLines, skipLines_of.
  set (n0 := Z.to_nat (n - EnhancedLineReader.linePointer start - 1)).
  pose proof Hcons1 as (_ & _ & Hp & [Hop|(Hrel & HpN)]).
  - destruct (skipLines_loop_indexed ls n0 start 0 Hcons1 Hop)
      as (result & this1 & Hskip & Hcons2 & Hle & Hgt).
    rewrite Hskip. simpl snd. split.
    + intros Hpast.
      destruct (Z_le_gt_dec (EnhancedLineReader.linePointer start + Z.of_nat n0)
                  (Z.of_nat (length ls))) as [Hfit|Hover].
      * destruct (Hle Hfit) as (Hp2 & Hop2).
        assert (ls !! Z.to_nat (EnhancedLineReader.linePointer this1) = None)
          as Hl by (apply lookup_ge_None; lia).
        destruct (readLine_indexed_end ls this1 Hcons2 Hop2 Hl)
          as (this2 & -> & _).
        reflexivity.
      * now rewrite (readLine_indexed_released this1 (Hgt ltac:(lia))).
    + intros Hin. destruct Hle as (Hp2 & Hop2); [lia|].
      assert (EnhancedLineReader.linePointer this1 = n - 1) as Hp2' by lia.
      assert (is_Some (ls !! Z.to_nat (n - 1))) as [l Hl]
          by (apply lookup_lt_is_Some; lia).
      rewrite <- Hp2' in Hl.
      destruct (readLine_indexed_some ls this1 l Hcons2 Hop2 Hl)
        as (this2 & Hread & _ & Hp3 & Hop3).
      exists l, this2. rewrite Hread. split; [reflexivity|].
      split; [rewrite <- Hp2'; exact Hl|]. split; [lia|].
      split; [|reflexivity].
      replace n with (EnhancedLineReader.linePointer this2) at 1 by lia.
      exact Hop3.
  - pose proof (skipLines_loop_released n0 0 start Hrel) as Hsame.
    split; [|intros; lia]. intros _. rewrite Hsame.
    destruct (skipLines_loop EnhancedLineReader.readLine n0 0 start)
      as [[result|e] this1]; simpl in Hsame; subst this1;
      now rewrite (readLine_indexed_released start Hrel).
Qed.

Lemma readLineAt_hit (this : EnhancedLineReader.t) (n : Z) (v : string) :
  1 <= n ->
  EnhancedLineReader.cache this !! n = Some v ->
  EnhancedLineReader.readLineAt n this = (Normal (Some v), this).
Proof.
  intros Hn Hhit. unfold EnhancedLineReader.readLineAt.
  destruct (Z.ltb_spec n 1) as [?|_]; [lia|]. now rewrite Hhit.
Qed.

Lemma readLineAt_miss (ls : list string) (this : EnhancedLineReader.t)
    (n : Z) :
  consistent ls this ->
  1 <= n <= Z.of_nat (length ls) ->
  EnhancedLineReader.cache this !! n = None ->
  exists (l : string) (this' : EnhancedLineReader.t),
    EnhancedLineReader.readLineAt n this = (Normal (Some l), this')
    /\ ls !! Z.to_nat (n - 1) = Some l
    /\ EnhancedLineReader.getCurrentLineNumber this' = n
    /\ opened (drop (Z.to_nat n) ls) (EnhancedLineReader.super this').
Proof.
  intros Hcons Hn Hmiss.
  destruct (readLineAt_trace ls n this Hcons ltac:(lia) Hmiss)
    as (start & _ & _ & _ & _ & _ & Hin).
  destruct (Hin ltac:(lia)) as (l & this2 & _ & Hl & Hp & Hop & Hres).
  exists l. eexists. split; [exact Hres|]. split; [exact Hl|].
  destruct (manageCache_shrinks (EnhancedLineReader.cache_set n l this2))
    as (Hsuper & _ & Hptr & _).
  unfold EnhancedLineReader.getCurrentLineNumber.
  rewrite Hsuper, Hptr. split; [exact Hp|exact Hop].
Qed.

(** X17: how [readLineAt(n)] moves the counter, for a line [n] of a
    fault-free file. When line [n] is cached the call returns it and changes
    nothing. When it is not, the call reads (after a restart if the line is
    at or behind the counter), returns line [n], and leaves the session open
    just after line [n] with the counter at [n]. *)
Theorem readLineAt_counter (ls : list string) (this : EnhancedLineReader.t)
    (n : Z) :
  consistent ls this ->
  1 <= n <= Z.of_nat (length ls) ->
  (forall v,
      EnhancedLineReader.cache this !! n = Some v ->
      EnhancedLineReader.readLineAt n this = (Normal (Some v), this))
  /\ (EnhancedLineReader.cache this !! n = None ->
      exists (l : string) (this' : EnhancedLineReader.t),
        EnhancedLineReader.readLineAt n this = (Normal (Some l), this')
        /\ ls !! Z.to_nat (n - 1) = Some l
        /\ EnhancedLineReader.getCurrentLineNumber this' = n
        /\ opened (drop (Z.to_nat n) ls) (EnhancedLineReader.super this')).
Proof.
  intros Hcons Hn. split.
  - intros v. apply readLineAt_hit. lia.
  - now apply readLineAt_miss.
Qed.

Lemma readLineAt_counter_witness :
  exists (l : string) (this' : EnhancedLineReader.t),
    EnhancedLineReader.readLineAt 2
      (after_calls
         (snd (EnhancedLineReader.open
                 (EnhancedLineReader.constructor (map Line TEST_LINES)
                    (Some 2))))
         [CallReadLineAt 5])
    = (Normal (Some l), this')
    /\ EnhancedLineReader.getCurrentLineNumber this' = 2.
Proof.
  destruct (proj2 (readLineAt_counter TEST_LINES
                     (after_calls
                        (snd (EnhancedLineReader.open
                                (EnhancedLineReader.constructor
                                   (map Line TEST_LINES) (Some 2))))
                        [CallReadLineAt 5])
                     2
                     (after_calls_consistent TEST_LINES [CallReadLineAt 5] _
                        (consistent_fresh TEST_LINES (Some 2)))
                     ltac:(simpl; lia))
              ltac:(vm_compute; reflexivity))
    as (l & this' & Hres & _ & Hp & _).
  exists l, this'. split; [exact Hres|exact Hp].
Defined.

(** ** Files that fit in the cache *)

Lemma size_keys_bounded (c : gmap Z string) (N : Z) :
  (forall k, is_Some (c !! k) -> 1 <= k <= N) ->
  Z.of_nat (size c) <= Z.max 0 N.
Proof.
  intros Hkeys. rewrite <- (size_dom (D := gset Z) c).
  assert (dom c ⊆ (list_to_set (seqZ 1 N) : gset Z)) as Hsub.
  { intros k Hk. apply elem_of_dom in Hk. apply elem_of_list_to_set.
    apply elem_of_seqZ. specialize (Hkeys k Hk). lia. }
  apply subseteq_size in Hsub.
  rewrite (size_list_to_set _ (NoDup_seqZ 1 N)), length_seqZ in Hsub. lia.
Qed.

Lemma manageCache_fits (this : EnhancedLineReader.t) (N : Z) :
  (forall k, is_Some (EnhancedLineReader.cache this !! k) -> 1 <= k <= N) ->
  0 <= N <= EnhancedLineReader.cacheSize this ->
  EnhancedLineReader.manageCache this = this.
Proof.
  intros Hkeys HN. pose proof (size_keys_bounded _ N Hkeys).
  unfold EnhancedLineReader.manageCache.
  destruct (Z.gtb_spec (Z.of_nat (size (EnhancedLineReader.cache this)))
              (EnhancedLineReader.cacheSize this)); [lia|reflexivity].
Qed.

(** Storing a line of the file changes nothing but the cache, which gains
    the line, when the capacity covers the file. *)
Lemma store_fits (ls : list string) (this : EnhancedLineReader.t) (k : Z)
    (l : string) :
  consistent ls this ->
  Z.of_nat (length ls) <= EnhancedLineReader.cacheSize this ->
  1 <= k <= Z.of_nat (length ls) ->
  EnhancedLineReader.manageCache (EnhancedLineReader.cache_set k l this)
  = EnhancedLineReader.cache_set k l this.
Proof.
  intros (_ & Hcache & _) Hcap Hk.
  apply (manageCache_fits _ (Z.of_nat (length ls))); [|simpl; lia].
  intros k' [v Hv]. simpl in Hv.
  apply lookup_insert_Some in Hv as [[<- _]|[_ Hv]]; [exact Hk|].
  destruct (Hcache k' v Hv) as (Hk1 & Hl). apply lookup_lt_Some in Hl. lia.
Qed.

Lemma readLine_gapless (ls : list string) (K : Z -> Prop)
    (this : EnhancedLineReader.t) :
  gapless ls this /\ retains K this ->
  gapless ls (snd (EnhancedLineReader.readLine this))
  /\ retains K (snd (EnhancedLineReader.readLine this)).
Proof.
  intros ((Hcons & Hcap & Hprefix & Hclosed) & Hkeep).
  pose proof (readLine_indexed_consistent ls this Hcons) as Hcons'.
  pose proof Hcons as (_ & _ & Hp & _).
  unfold EnhancedLineReader.readLine, bind, EnhancedLineReader.inherited in *.
  destruct (LineReader.readLine (EnhancedLineReader.super this))
    as [[[l|]|e] base]; simpl in *;
    try (split; [split; [exact Hcons'|split; [exact Hcap|split; assumption]]
                |exact Hkeep]).
  set (pre := EnhancedLineReader.set_linePointer
                (EnhancedLineReader.linePointer this + 1)
                (EnhancedLineReader.mk base (EnhancedLineReader.cache this)
                   (EnhancedLineReader.cacheSize this)
                   (EnhancedLineReader.linePointer this))) in *.
  change (EnhancedLineReader.linePointer this + 1)
    with (EnhancedLineReader.linePointer pre) in Hcons' |- *.
  pose proof Hcons' as (_ & _ & Hp' & _).
  destruct (manageCache_shrinks
              (EnhancedLineReader.cache_set
                 (EnhancedLineReader.linePointer pre) l pre))
    as (_ & _ & Hptr & _).
  rewrite Hptr in Hp'. simpl in Hp'.
  rewrite (manageCache_fits _ (Z.of_nat (length ls))) in Hcons' |- *;
    [| |simpl; lia| |simpl; lia].
  2, 3: (intros k' [v Hv]; simpl in Hv;
         apply lookup_insert_Some in Hv as [[<- _]|[_ Hv]]; [lia|];
         destruct Hcons as (_ & Hcache & _);
         destruct (Hcache k' v Hv) as (Hk1 & Hl);
         apply lookup_lt_Some in Hl; lia).
  assert (forall key,
             is_Some (EnhancedLineReader.cache this !! key) ->
             is_Some (<[EnhancedLineReader.linePointer this + 1 := l]>
                        (EnhancedLineReader.cache this) !! key)) as Hgrow.
  { intros key [v Hv].
    destruct (decide (EnhancedLineReader.linePointer this + 1 = key)) as [<-|Hne].
    - rewrite lookup_insert_eq. now eexists.
    - rewrite lookup_insert_ne by exact Hne. now exists v. }
  assert (forall key,
             1 <= key <= EnhancedLineReader.linePointer this + 1 ->
             is_Some (<[EnhancedLineReader.linePointer this + 1 := l]>
                        (EnhancedLineReader.cache this) !! key)) as Hprefix'.
  { intros key Hkey.
    destruct (decide (EnhancedLineReader.linePointer this + 1 = key)) as [<-|Hne].
    - rewrite lookup_insert_eq. now eexists.
    - apply Hgrow, Hprefix. lia. }
  split; [|intros key Hkey; simpl; apply Hgrow, Hkeep, Hkey].
  split; [exact Hcons'|]. split; [exact Hcap|]. simpl.
  split; [exact Hprefix'|].
  intros key key' [v Hv] Hkey.
  apply lookup_insert_Some in Hv as [[<- _]|[_ Hv]].
  - now apply Hprefix'.
  - apply Hgrow. apply (Hclosed key key'); [now exists v|exact Hkey].
Qed.

Lemma readLineAt_gapless (ls : list string) (K : Z -> Prop) (n : Z)
    (this : EnhancedLineReader.t) :
  gapless ls this /\ retains K this ->
  gapless ls (snd (EnhancedLineReader.readLineAt n this))
  /\ retains K (snd (EnhancedLineReader.readLineAt n this)).
Proof.
  intros Hall. pose proof Hall as ((Hcons & Hcap & Hprefix & Hclosed) & Hkeep).
  destruct (Z_lt_le_dec n 1) as [Hlow|Hpos].
  { unfold EnhancedLineReader.readLineAt.
    destruct (Z.ltb_spec n 1) as [_|?]; [exact Hall|lia]. }
  destruct (EnhancedLineReader.cache this !! n) as [v|] eqn:Hlook.
  { unfold EnhancedLineReader.readLineAt.
    destruct (Z.ltb_spec n 1) as [?|_]; [lia|]. rewrite Hlook. exact Hall. }
  destruct (readLineAt_trace ls n this Hcons Hpos Hlook)
    as (start & Hcons1 & Hc & Hcs & Hwhich & Hpast & Hin).
  assert (gapless ls start /\ retains K start) as Hstart.
  { split; [|intros key Hkey; rewrite Hc; now apply Hkeep].
    split; [exact Hcons1|]. split; [now rewrite Hcs|]. rewrite Hc.
    split; [|exact Hclosed].
    destruct Hwhich as [->|H0]; [exact Hprefix|]. intros key Hkey. lia. }
  pose proof (skipLines_loop_preserves EnhancedLineReader.readLine
                (fun t => gapless ls t /\ retains K t)
                (Z.to_nat (n - EnhancedLineReader.linePointer start - 1))
                (readLine_gapless ls K) start 0 Hstart) as Hskipped.
  pose proof (readLine_gapless ls K _ Hskipped) as Hread.
  destruct (Z_lt_le_dec (Z.of_nat (length ls)) n) as [Hout|Hfile].
  { now rewrite (Hpast Hout). }
  destruct (Hin Hfile) as (l & this2 & Hline & Hl & Hp2 & _ & Hres).
  rewrite Hres. rewrite Hline in Hread. simpl in Hread |- *.
  destruct Hread as ((Hcons2 & Hcap2 & Hprefix2 & Hclosed2) & Hkeep2).
  rewrite (store_fits ls this2 n l Hcons2 Hcap2 ltac:(lia)).
  assert (forall key,
             is_Some (EnhancedLineReader.cache this2 !! key) ->
             is_Some (<[n := l]> (EnhancedLineReader.cache this2) !! key))
    as Hgrow.
  { intros key [v Hv]. destruct (decide (n = key)) as [<-|Hne].
    - rewrite lookup_insert_eq. now eexists.
    - rewrite lookup_insert_ne by exact Hne. now exists v. }
  split; [|intros key Hkey; simpl; apply Hgrow, Hkeep2, Hkey].
  split.
  { pose proof (consistent_cache_set ls this2 n l Hcons2 ltac:(lia) Hl) as H.
    now rewrite (store_fits ls this2 n l Hcons2 Hcap2 ltac:(lia)) in H. }
  split; [exact Hcap2|]. simpl.
  split; [intros key Hkey; apply Hgrow, Hprefix2, Hkey|].
  intros key key' [v Hv] Hkey. apply Hgrow.
  apply lookup_insert_Some in Hv as [[<- _]|[_ Hv]].
  - apply Hprefix2. lia.
  - apply (Hclosed2 key key'); [now exists v|exact Hkey].
Qed.

Lemma after_calls_gapless (ls : list string) (K : Z -> Prop) (cs : list call) :
  forall this : EnhancedLineReader.t,
    gapless ls this /\ retains K this ->
    gapless ls (after_calls this cs) /\ retains K (after_calls this cs).
Proof.
  induction cs as [|c cs IH]; intros this Hall; [exact Hall|].
  apply IH. destruct c as [|n]; simpl.
  - now apply readLine_gapless.
  - now apply readLineAt_gapless.
Qed.

(** X18: a file that fits in the cache is never read twice. When the
    capacity is at least the number of lines of a fault-free file, nothing is
    evicted: once [readLineAt(n)] has been called for a line [n] of the file,
    then after any further calls every [readLineAt(k)] with [1 <= k <= n]
    returns line [k] from the cache and changes nothing, without a
    restart. *)
Theorem small_file_is_served_from_cache (ls : list string)
    (options_cacheSize : option Z) (cs1 cs2 : list call) (n k : Z) :
  Z.of_nat (length ls)
  <= EnhancedLineReader.cacheSize
       (EnhancedLineReader.constructor (map Line ls) options_cacheSize) ->
  1 <= k <= n ->
  n <= Z.of_nat (length ls) ->
  exists l : string,
    ls !! Z.to_nat (k - 1) = Some l
    /\ EnhancedLineReader.readLineAt k
         (after_calls
            (snd (EnhancedLineReader.open
                    (EnhancedLineReader.constructor (map Line ls)
                       options_cacheSize)))
            (cs1 ++ CallReadLineAt n :: cs2))
       = (Normal (Some l),
          after_calls
            (snd (EnhancedLineReader.open
                    (EnhancedLineReader.constructor (map Line ls)
                       options_cacheSize)))
            (cs1 ++ CallReadLineAt n :: cs2)).
Proof.
  intros Hcap Hk Hn.
  set (this0 := snd (EnhancedLineReader.open
                       (EnhancedLineReader.constructor (map Line ls)
                          options_cacheSize))).
  assert (gapless ls this0 /\ retains (fun _ => False) this0) as H0.
  { split; [|intros key []].
    split; [apply consistent_fresh|]. split; [exact Hcap|].
    split; [simpl; intros; lia|].
    intros key key' [v Hv]. simpl in Hv. rewrite lookup_empty in Hv.
    discriminate. }
  destruct (after_calls_gapless ls _ cs1 this0 H0) as (Hg1 & _).
  set (this1 := after_calls this0 cs1) in *.
  destruct (readLineAt_gapless ls (fun _ => False) n this1
              (conj Hg1 (fun key (H : False) => match H with end)))
    as (Hg2 & _).
  assert (is_Some (EnhancedLineReader.cache
                     (snd (EnhancedLineReader.readLineAt n this1)) !! n))
    as Hn_cached.
  { pose proof Hg1 as (Hcons1 & _).
    destruct (EnhancedLineReader.cache this1 !! n) as [v|] eqn:Hlook.
    - rewrite (readLineAt_hit this1 n v ltac:(lia) Hlook).
      simpl. rewrite Hlook. now exists v.
    - destruct (readLineAt_miss ls this1 n Hcons1 ltac:(lia) Hlook)
        as (l & this' & Hres & _ & Hp & _).
      rewrite Hres in Hg2 |- *. simpl in Hg2 |- *.
      destruct Hg2 as (_ & _ & Hprefix & _). apply Hprefix.
      unfold EnhancedLineReader.getCurrentLineNumber in Hp. lia. }
  assert (retains (fun key => key = k)
            (snd (EnhancedLineReader.readLineAt n this1))) as Hk_cached.
  { intros key ->. destruct Hg2 as (_ & _ & _ & Hclosed).
    now apply (Hclosed k n). }
  destruct (after_calls_gapless ls _ cs2 _ (conj Hg2 Hk_cached))
    as ((Hcons & _) & Hkeep).
  assert (after_calls this0 (cs1 ++ CallReadLineAt n :: cs2)
          = after_calls (snd (EnhancedLineReader.readLineAt n this1)) cs2)
    as -> by (unfold after_calls; now rewrite foldl_app).
  destruct (Hkeep k eq_refl) as [l Hl]. exists l.
  destruct Hcons as (_ & Hcache & _).
  split; [apply (Hcache k l Hl)|].
  apply readLineAt_hit; [lia|exact Hl].
Qed.

Lemma small_file_is_served_from_cache_witness :
  exists l : string,
    TEST_LINES !! Z.to_nat (2 - 1) = Some l
    /\ fst (EnhancedLineReader.readLineAt 2
              (after_calls
                 (snd (EnhancedLineReader.open
                         (EnhancedLineReader.constructor (map Line TEST_LINES)
                            (Some 5))))
                 ([CallReadLine] ++ CallReadLineAt 4 :: [CallReadLineAt 1])))
       = Normal (Some l).
Proof.
  destruct (small_file_is_served_from_cache TEST_LINES (Some 5)
              [CallReadLine] [CallReadLineAt 1] 4 2
              ltac:(simpl; lia) ltac:(lia) ltac:(simpl; lia))
    as (l & Hl & Hres).
  exists l. split; [exact Hl|]. now rewrite Hres.
Defined.

(** * Reading in several calls *)

Lemma readLines_loop_acc {R : Type} (readLine : M R (option string)) (n : nat) :
  forall (r : R) (lines : list string),
    readLines_loop readLine n lines r
    = (match fst (readLines_loop readLine n [] r) with
       | Normal more => Normal (lines ++ more)
       | Throw e => Throw e
       end,
       snd (readLines_loop readLine n [] r)).
Proof.
  induction n as [|n IH]; intros r lines.
  - simpl. unfold ret. simpl. now rewrite app_nil_r.
  - simpl. unfold bind. destruct (readLine r) as [[[l|]|e] r1]; simpl.
    + rewrite (IH r1 (lines ++ [l])), (IH r1 [l]). simpl.
      destruct (fst (readLines_loop readLine n [] r1)); simpl;
        [now rewrite <- app_assoc|reflexivity].
    + unfold ret. simpl. now rewrite app_nil_r.
    + reflexivity.
Qed.

Lemma readLines_loop_split {R : Type} (readLine : M R (option string))
    (n more : nat) :
  forall (r r' : R) (vs lines : list string),
    readLine_times readLine n r = (map (fun l => Normal (Some l)) vs, r') ->
    readLines_loop readLine (n + more) lines r
    = readLines_loop readLine more (lines ++ vs) r'.
Proof.
  induction n as [|n IH]; intros r r' vs lines Hrun.
  - simpl in Hrun. destruct vs; [|discriminate].
    injection Hrun as <-. simpl. now rewrite app_nil_r.
  - simpl in Hrun. destruct (readLine r) as [c r1] eqn:Hr.
    destruct (readLine_times readLine n r1) as [cs1 r2] eqn:Hrest.
    destruct vs as [|v vs]; [discriminate|]. simpl in Hrun.
    injection Hrun as -> -> <-.
    simpl. unfold bind. rewrite Hr.
    rewrite (IH r1 r2 vs (lines ++ [v]) Hrest). now rewrite <- app_assoc.
Qed.

(** X19: reading in two calls. On an open session with the lines [ls] left,
    when the first count fits ([0 <= a <= N]), [readLines(a)] followed by
    [readLines(b)] returns, put together, what [readLines(a + b)] returns,
    and leaves the same state. When the first count goes past the end, the
    first call returns all the lines and closes the session, and a second
    call with a positive count throws the "not open" error. *)
Theorem readLines_in_two_calls (ls : list string) (this : LineReader.t)
    (a b : Z) :
  opened ls this ->
  0 <= a ->
  0 <= b ->
  exists this1,
    LineReader.readLines a this = (Normal (take (Z.to_nat a) ls), this1)
    /\ (a <= Z.of_nat (length ls) ->
        LineReader.readLines (a + b) this
        = (match fst (LineReader.readLines b this1) with
           | Normal more => Normal (take (Z.to_nat a) ls ++ more)
           | Throw e => Throw e
           end,
           snd (LineReader.readLines b this1)))
    /\ (Z.of_nat (length ls) < a -> 0 < b ->
        LineReader.readLines b this1 = (Throw NotOpen, this1)
        /\ fst (LineReader.readLines (a + b) this) = Normal ls).
Proof.
  intros Hop Ha Hb.
  destruct (le_lt_dec (Z.to_nat a) (length ls)) as [Hfit|Hover].
  - destruct (readLine_times_prefix (Z.to_nat a) ls this Hop Hfit)
      as (this1 & Hrun & _).
    exists this1. unfold LineReader.readLines, readLines_of.
    split; [|split; [|intros; lia]].
    + rewrite <- (Nat.add_0_r (Z.to_nat a)) at 1.
      now rewrite (readLines_loop_split _ _ 0 _ _ _ [] Hrun).
    + intros _. replace (Z.to_nat (a + b)) with (Z.to_nat a + Z.to_nat b)%nat
        by lia.
      rewrite (readLines_loop_split _ _ _ _ _ _ [] Hrun).
      apply readLines_loop_acc.
  - destruct (readLines_loop_opened (Z.to_nat a) ls this [] Hop)
      as (this1 & Hread & _ & _ & Hgt).
    exists this1. split; [exact Hread|]. split; [intros; lia|].
    intros _ Hbpos. destruct (Hgt Hover) as (Hrl & _). split.
    + unfold LineReader.readLines, readLines_of.
      destruct (Z.to_nat b) as [|n] eqn:Hn; [lia|].
      simpl. unfold bind. now rewrite (readLine_no_handle this1 Hrl).
    + destruct (readLines_loop_opened (Z.to_nat (a + b)) ls this [] Hop)
        as (this2 & Hread2 & _).
      unfold LineReader.readLines, readLines_of. rewrite Hread2. simpl.
      now rewrite take_ge by lia.
Qed.

Lemma readLines_in_two_calls_witness :
  exists this1,
    LineReader.readLines 2
      (snd (LineReader.open (LineReader.constructor (map Line TEST_LINES))))
    = (Normal ["Alpha"; "Bravo"], this1)
    /\ LineReader.readLines (2 + 2)
         (snd (LineReader.open (LineReader.constructor (map Line TEST_LINES))))
       = (match fst (LineReader.readLines 2 this1) with
          | Normal more => Normal (["Alpha"; "Bravo"] ++ more)
          | Throw e => Throw e
          end,
          snd (LineReader.readLines 2 this1)).
Proof.
  destruct (readLines_in_two_calls TEST_LINES _ 2 2 (opened_fresh TEST_LINES)
              ltac:(lia) ltac:(lia)) as (this1 & Hfirst & Hboth & _).
  exists this1. split; [exact Hfirst|]. apply Hboth. simpl. lia.
Defined.
